(** * A chess rules engine: the case study under
    [topics/06-interview-prep/case-studies/chess/implementation.cpp]

    The development embeds the C++ classes [Position], [Move], [Board],
    [Piece]/[Pawn] and [GameState] as Rocq definitions and states the
    properties of the engine over them.

    Conventions of the embedding:
    - a C++ [int] is a [Z]; additions and subtractions that the source
      performs on stored values go through [int_wrap] (two's complement,
      32 bits);
    - a [char] is an [ascii]; its promotion to [int] is [int_of_char];
    - the 8x8 [vector<vector<unique_ptr<Piece>>>] is a list of rows of
      optional pieces, read and written by index;
    - a piece object lives in the board slot that owns it; a raw [Piece*]
      is the address of the object together with its dynamic type;
    - [unordered_map<string,int>] is a [gmap string Z];
    - a function whose execution reads an object that was destroyed or
      never given a value returns [None] there;
    - [undoMove] can return with a slot holding a pointer that the slot
      does not own alone; the result is then marked [Stale], and no call
      is followed from it.

    The source elides the classes of the officers ([Similar
    implementations for other pieces...]) and their placement in
    [initializeBoard]; the definitions that stand in for them are marked
    [Modelled from the spec]. *)

From Stdlib Require Import ZArith Ascii String Bool Lia.
From stdpp Require Import base option list gmap strings pretty.

Open Scope Z_scope.

(** ** Machine integers and characters *)

Module Int.

Definition int_min : Z := - 2 ^ 31.
Definition int_max : Z := 2 ^ 31 - 1.

Definition int_wrap (z : Z) : Z := (z + 2 ^ 31) mod 2 ^ 32 - 2 ^ 31.

Definition add (a b : Z) : Z := int_wrap (a + b).
Definition sub (a b : Z) : Z := int_wrap (a - b).
Definition mul (a b : Z) : Z := int_wrap (a * b).

(** [x++] on an [int] lvalue. *)
Definition incr (a : Z) : Z := add a 1.

End Int.

(** Promotion of a plain [char] to [int] (plain [char] is signed). *)
Definition int_of_char (c : ascii) : Z :=
  let n := Z.of_nat (nat_of_ascii c) in
  if n <? 128 then n else n - 256.

(** Conversion of an [int] to [char], as [string::operator+=(char)] applies
    it to an [int] argument. *)
Definition char_of_int (z : Z) : ascii := ascii_of_nat (Z.to_nat (z mod 256)).

(** [std::to_string(int)]. *)
Definition to_string (z : Z) : string := pretty z.

(** [notation[i]]; reading at [size()] yields the terminating zero. *)
Definition string_at (s : string) (i : nat) : ascii :=
  match String.get i s with
  | Some c => c
  | None => zero
  end.

(** ** Position *)

Inductive exn : Type :=
  | invalid_argument (what : string).

Inductive result (A : Type) : Type :=
  | Ok (a : A)
  | Throw (e : exn).
Arguments Ok {A} a.
Arguments Throw {A} e.

Definition throws {A : Type} (r : result A) : Prop :=
  match r with
  | Ok _ => False
  | Throw _ => True
  end.

Record Position : Type := mkPosition { getRow : Z; getCol : Z }.

#[global] Instance Position_eq_dec : EqDecision Position.
Proof. solve_decision. Defined.

(** [Position::Position(const string&)] *)
Definition Position_of_notation (notation : string) : result Position :=
  if negb (Nat.eqb (String.length notation) 2) then
    Throw (invalid_argument "Invalid position notation")
  else
    let col := Int.sub (int_of_char (string_at notation 0)) (int_of_char "a") in
    let row := Int.sub 8 (Int.sub (int_of_char (string_at notation 1)) (int_of_char "0")) in
    Ok (mkPosition row col).

(** [Position::getNotation] *)
Definition getNotation (p : Position) : string :=
  let notation := EmptyString in
  let notation := notation +:+ String (char_of_int (Int.add (int_of_char "a") (getCol p))) EmptyString in
  let notation := notation +:+ String (char_of_int (Int.add (int_of_char "0") (Int.sub 8 (getRow p)))) EmptyString in
  notation.

(** [Position::isValid] *)
Definition isValid (p : Position) : bool :=
  (0 <=? getRow p) && (getRow p <? 8) && (0 <=? getCol p) && (getCol p <? 8).

(** [Position::operator==] *)
Definition Position_eqb (p q : Position) : bool :=
  (getRow p =? getRow q) && (getCol p =? getCol q).

(** The textual form [[a-h][1-8]]: a file letter followed by a rank digit. *)
Definition is_file_letter (c : ascii) : bool :=
  (97 <=? nat_of_ascii c)%nat && (nat_of_ascii c <=? 104)%nat.

Definition is_rank_digit (c : ascii) : bool :=
  (49 <=? nat_of_ascii c)%nat && (nat_of_ascii c <=? 56)%nat.

Definition is_algebraic (s : string) : bool :=
  match s with
  | String f (String r EmptyString) => is_file_letter f && is_rank_digit r
  | _ => false
  end.

(** The rejection rule as the specification words it: the constructor
    throws exactly on the strings that are not of the form [[a-h][1-8]]. *)
Definition rejects_exactly_non_algebraic (s : string) : Prop :=
  throws (Position_of_notation s) <-> is_algebraic s = false.

(** ** Enumerations *)

Inductive Color : Type := WHITE | BLACK.
Inductive PieceType : Type := PAWN | ROOK | KNIGHT | BISHOP | QUEEN | KING.

#[global] Instance Color_eq_dec : EqDecision Color.
Proof. solve_decision. Defined.
#[global] Instance PieceType_eq_dec : EqDecision PieceType.
Proof. solve_decision. Defined.

Definition Color_eqb (a b : Color) : bool := bool_decide (a = b).
Definition PieceType_eqb (a b : PieceType) : bool := bool_decide (a = b).

(** [(color == Color::WHITE) ? Color::BLACK : Color::WHITE] *)
Definition opponent (c : Color) : Color :=
  match c with
  | WHITE => BLACK
  | BLACK => WHITE
  end.

(** ** Piece objects and pointers to them *)

(** A [Piece] object: its address, its dynamic type (the subclass it was
    created as) and the three members of the base class. *)
Record Piece : Type := mkPiece {
  addr : nat;
  getType : PieceType;
  getColor : Color;
  getPosition : Position;
  getHasMoved : bool
}.

#[global] Instance Piece_eq_dec : EqDecision Piece.
Proof. solve_decision. Defined.

Definition setHasMoved (moved : bool) (p : Piece) : Piece :=
  {| addr := addr p; getType := getType p; getColor := getColor p;
     getPosition := getPosition p; getHasMoved := moved |}.

Definition setPosition (pos : Position) (p : Piece) : Piece :=
  {| addr := addr p; getType := getType p; getColor := getColor p;
     getPosition := pos; getHasMoved := getHasMoved p |}.

(** A raw [Piece*]. The dynamic type of an object never changes, so the
    pointer carries it; the mutable members are reached through the
    address, in the board slot that owns the object. *)
Record PiecePtr : Type := mkPiecePtr {
  ptr_addr : nat;
  ptr_type : PieceType
}.

#[global] Instance PiecePtr_eq_dec : EqDecision PiecePtr.
Proof. solve_decision. Defined.

Definition ptr_of (p : Piece) : PiecePtr :=
  {| ptr_addr := addr p; ptr_type := getType p |}.

(** ** Move *)

Record Move : Type := mkMove {
  getFrom : Position;
  getTo : Position;
  getPiece : PiecePtr;
  getCapturedPiece : option PiecePtr;
  getIsCastling : bool;
  getIsEnPassant : bool;
  getIsPromotion : bool;
  getPromotionType : option PieceType
}.

#[global] Instance Move_eq_dec : EqDecision Move.
Proof. solve_decision. Defined.

(** [Move::Move(from, to, piece)]; [promotionType] is left without a value. *)
Definition Move_new (from to : Position) (piece : PiecePtr) : Move :=
  {| getFrom := from; getTo := to; getPiece := piece;
     getCapturedPiece := None; getIsCastling := false;
     getIsEnPassant := false; getIsPromotion := false;
     getPromotionType := None |}.

Definition setCapturedPiece (piece : PiecePtr) (m : Move) : Move :=
  {| getFrom := getFrom m; getTo := getTo m; getPiece := getPiece m;
     getCapturedPiece := Some piece; getIsCastling := getIsCastling m;
     getIsEnPassant := getIsEnPassant m; getIsPromotion := getIsPromotion m;
     getPromotionType := getPromotionType m |}.

(** ** Board *)

Record Board : Type := mkBoard { squares : list (list (option Piece)) }.

#[global] Instance Board_eq_dec : EqDecision Board.
Proof. solve_decision. Defined.

(** [Board::Board()] *)
Definition Board_new : Board :=
  {| squares := replicate 8 (replicate 8 None) |}.

(** [Board::getPiece] *)
Definition Board_getPiece (b : Board) (pos : Position) : option Piece :=
  if negb (isValid pos) then None
  else
    match squares b !! Z.to_nat (getRow pos) with
    | Some r => mjoin (r !! Z.to_nat (getCol pos))
    | None => None
    end.

(** [Board::setPiece]; the previous occupant of the slot is destroyed. *)
Definition Board_setPiece (b : Board) (pos : Position) (piece : option Piece) : Board :=
  if negb (isValid pos) then b
  else
    {| squares :=
         alter (fun r => <[Z.to_nat (getCol pos) := piece]> r)
               (Z.to_nat (getRow pos)) (squares b) |}.

(** [Board::movePiece]: [squares[to] = move(squares[from])] empties the
    source slot and destroys whatever the destination slot owned. *)
Definition Board_movePiece (b : Board) (from to : Position) : Board :=
  if negb (isValid from) || negb (isValid to) then b
  else
    let moved := Board_getPiece b from in
    Board_setPiece (Board_setPiece b from None) to moved.

(** [Board::isPositionValid] *)
Definition Board_isPositionValid (pos : Position) : bool := isValid pos.

(** [Board::clear] *)
Definition Board_clear (b : Board) : Board :=
  {| squares := map (map (fun _ => None)) (squares b) |}.

(** Writing a member of the object at address [a] through a pointer. *)
Definition Board_update (b : Board) (a : nat) (f : Piece -> Piece) : Board :=
  {| squares :=
       map (map (fun slot =>
                   match slot with
                   | Some p => if Nat.eqb (addr p) a then Some (f p) else Some p
                   | None => None
                   end)) (squares b) |}.

(** Reading the object at address [a]; [None] when no slot owns such an
    object any more (the pointer dangles). *)
Definition Board_deref (b : Board) (a : nat) : option Piece :=
  snd <$> list_find (fun p : Piece => addr p = a) (omap id (concat (squares b))).

(** A pointer tested for null, as in [if (piece)]. *)
Definition nonnull {A : Type} (p : option A) : bool :=
  match p with
  | Some _ => true
  | None => false
  end.

(** ** Pseudo-legal move generation *)

(** [Pawn::getValidMoves] *)
Definition Pawn_getValidMoves (self : Piece) (board : Board) : list Position :=
  let position := getPosition self in
  let color := getColor self in
  let direction := if Color_eqb color WHITE then -1 else 1 in
  let forward := mkPosition (Int.add (getRow position) direction) (getCol position) in
  let moves :=
    if isValid forward && negb (nonnull (Board_getPiece board forward)) then
      let moves := [forward] in
      if negb (getHasMoved self) then
        let doubleForward :=
          mkPosition (Int.add (getRow position) (Int.mul 2 direction)) (getCol position) in
        if negb (nonnull (Board_getPiece board doubleForward))
        then moves ++ [doubleForward] else moves
      else moves
    else [] in
  let captures :=
    [ mkPosition (Int.add (getRow position) direction) (Int.sub (getCol position) 1);
      mkPosition (Int.add (getRow position) direction) (Int.add (getCol position) 1) ] in
  foldl (fun moves capture =>
           if isValid capture then
             match Board_getPiece board capture with
             | Some target =>
                 if negb (Color_eqb (getColor target) color)
                 then moves ++ [capture] else moves
             | None => moves
             end
           else moves) moves captures.

(** Modelled from the spec: the test both the knight and the king apply to
    a candidate square, and the sliders to the end of a ray (the classes
    [Knight], [Bishop], [Rook], [Queen] and [King] are elided in the source
    by the comment [Similar implementations for other pieces...]): within
    board bounds and not landing on a same-colour occupant. *)
Definition landable (self : Piece) (board : Board) (dst : Position) : bool :=
  isValid dst &&
  match Board_getPiece board dst with
  | Some target => negb (Color_eqb (getColor target) (getColor self))
  | None => true
  end.

(** Modelled from the spec: the squares at fixed offsets from the piece's
    own [position] member that pass [landable]; shared by the elided
    [Knight] and [King] classes. *)
Definition offset_moves (self : Piece) (board : Board) (offsets : list (Z * Z)) : list Position :=
  List.filter (landable self board)
    (map (fun d => mkPosition (Int.add (getRow (getPosition self)) d.1)
                              (Int.add (getCol (getPosition self)) d.2)) offsets).

(** Modelled from the spec: one ray of the elided [Bishop], [Rook] and
    [Queen] classes, cast from [cur] in direction [d]; it stops at the board
    edge and at the first occupied square, which is a destination only if
    it holds an enemy piece. Eight steps cross the whole board. *)
Fixpoint ray (steps : nat) (self : Piece) (board : Board) (cur : Position) (d : Z * Z) : list Position :=
  match steps with
  | O => []
  | S steps' =>
      let next := mkPosition (Int.add (getRow cur) d.1) (Int.add (getCol cur) d.2) in
      if negb (isValid next) then []
      else
        match Board_getPiece board next with
        | Some target =>
            if negb (Color_eqb (getColor target) (getColor self)) then [next] else []
        | None => next :: ray steps' self board next d
        end
  end.

(** Modelled from the spec: the rays of a slider, cast from the piece's own
    [position] member as [Pawn::getValidMoves] does for its steps. *)
Definition ray_moves (self : Piece) (board : Board) (dirs : list (Z * Z)) : list Position :=
  concat (map (ray 8 self board (getPosition self)) dirs).

(** Modelled from the spec: the 8 fixed-offset jumps of the knight. *)
Definition knight_offsets : list (Z * Z) :=
  [(-2, -1); (-2, 1); (-1, -2); (-1, 2); (1, -2); (1, 2); (2, -1); (2, 1)].

(** Modelled from the spec: the 8 squares adjacent to the king. *)
Definition king_offsets : list (Z * Z) :=
  [(-1, -1); (-1, 0); (-1, 1); (0, -1); (0, 1); (1, -1); (1, 0); (1, 1)].

(** Modelled from the spec: the directions along files and ranks. *)
Definition rook_dirs : list (Z * Z) := [(-1, 0); (1, 0); (0, -1); (0, 1)].

(** Modelled from the spec: the directions along the diagonals. *)
Definition bishop_dirs : list (Z * Z) := [(-1, -1); (-1, 1); (1, -1); (1, 1)].

(** Modelled from the spec: [Knight::getValidMoves], the 8 fixed-offset
    jumps, filtered to board bounds and not landing on a same-colour
    occupant. *)
Definition Knight_getValidMoves (self : Piece) (board : Board) : list Position :=
  offset_moves self board knight_offsets.

(** Modelled from the spec: [Bishop::getValidMoves], rays along the
    diagonals. *)
Definition Bishop_getValidMoves (self : Piece) (board : Board) : list Position :=
  ray_moves self board bishop_dirs.

(** Modelled from the spec: [Rook::getValidMoves], rays along files and
    ranks. *)
Definition Rook_getValidMoves (self : Piece) (board : Board) : list Position :=
  ray_moves self board rook_dirs.

(** Modelled from the spec: [Queen::getValidMoves], rays along files, ranks
    and diagonals. *)
Definition Queen_getValidMoves (self : Piece) (board : Board) : list Position :=
  ray_moves self board (rook_dirs ++ bishop_dirs).

(** Modelled from the spec: [King::getValidMoves], the 8 adjacent squares,
    excluding same-colour occupants; castling destinations are not
    generated here. *)
Definition King_getValidMoves (self : Piece) (board : Board) : list Position :=
  offset_moves self board king_offsets.

(** The virtual call [piece->getValidMoves(board)]. *)
Definition Piece_getValidMoves (self : Piece) (board : Board) : list Position :=
  match getType self with
  | PAWN => Pawn_getValidMoves self board
  | KNIGHT => Knight_getValidMoves self board
  | BISHOP => Bishop_getValidMoves self board
  | ROOK => Rook_getValidMoves self board
  | QUEEN => Queen_getValidMoves self board
  | KING => King_getValidMoves self board
  end.

(** [std::find(moves.begin(), moves.end(), pos) != moves.end()] *)
Definition contains (moves : list Position) (pos : Position) : bool :=
  existsb (fun m => Position_eqb m pos) moves.

(** [Pawn::canMoveTo] *)
Definition Pawn_canMoveTo (self : Piece) (pos : Position) (board : Board) : bool :=
  let validMoves := Pawn_getValidMoves self board in
  contains validMoves pos.

(** Modelled from the spec: [canMoveTo] of the elided classes; a
    destination is admissible when it is among the pseudo-legal
    destinations of the piece, as in [Pawn::canMoveTo]. *)
Definition Officer_canMoveTo (self : Piece) (pos : Position) (board : Board) : bool :=
  let validMoves := Piece_getValidMoves self board in
  contains validMoves pos.

(** The virtual call [piece->canMoveTo(pos, board)]. *)
Definition Piece_canMoveTo (self : Piece) (pos : Position) (board : Board) : bool :=
  match getType self with
  | PAWN => Pawn_canMoveTo self pos board
  | _ => Officer_canMoveTo self pos board
  end.

(** ** GameState *)

Record GameState : Type := mkGameState {
  board : Board;
  currentPlayer : Color;
  moveHistory : list Move;
  whiteKingMoved : bool;
  blackKingMoved : bool;
  whiteRookMoved : bool * bool;
  blackRookMoved : bool * bool;
  enPassantTarget : Position;
  halfMoveClock : Z;
  fullMoveNumber : Z;
  positionHistory : gmap string Z
}.

#[global] Instance GameState_eq_dec : EqDecision GameState.
Proof. solve_decision. Defined.

Definition with_board (g : GameState) (b : Board) : GameState :=
  {| board := b; currentPlayer := currentPlayer g; moveHistory := moveHistory g;
     whiteKingMoved := whiteKingMoved g; blackKingMoved := blackKingMoved g;
     whiteRookMoved := whiteRookMoved g; blackRookMoved := blackRookMoved g;
     enPassantTarget := enPassantTarget g; halfMoveClock := halfMoveClock g;
     fullMoveNumber := fullMoveNumber g; positionHistory := positionHistory g |}.

Definition with_currentPlayer (g : GameState) (c : Color) : GameState :=
  {| board := board g; currentPlayer := c; moveHistory := moveHistory g;
     whiteKingMoved := whiteKingMoved g; blackKingMoved := blackKingMoved g;
     whiteRookMoved := whiteRookMoved g; blackRookMoved := blackRookMoved g;
     enPassantTarget := enPassantTarget g; halfMoveClock := halfMoveClock g;
     fullMoveNumber := fullMoveNumber g; positionHistory := positionHistory g |}.

Definition with_moveHistory (g : GameState) (h : list Move) : GameState :=
  {| board := board g; currentPlayer := currentPlayer g; moveHistory := h;
     whiteKingMoved := whiteKingMoved g; blackKingMoved := blackKingMoved g;
     whiteRookMoved := whiteRookMoved g; blackRookMoved := blackRookMoved g;
     enPassantTarget := enPassantTarget g; halfMoveClock := halfMoveClock g;
     fullMoveNumber := fullMoveNumber g; positionHistory := positionHistory g |}.

Definition with_halfMoveClock (g : GameState) (n : Z) : GameState :=
  {| board := board g; currentPlayer := currentPlayer g; moveHistory := moveHistory g;
     whiteKingMoved := whiteKingMoved g; blackKingMoved := blackKingMoved g;
     whiteRookMoved := whiteRookMoved g; blackRookMoved := blackRookMoved g;
     enPassantTarget := enPassantTarget g; halfMoveClock := n;
     fullMoveNumber := fullMoveNumber g; positionHistory := positionHistory g |}.

Definition with_fullMoveNumber (g : GameState) (n : Z) : GameState :=
  {| board := board g; currentPlayer := currentPlayer g; moveHistory := moveHistory g;
     whiteKingMoved := whiteKingMoved g; blackKingMoved := blackKingMoved g;
     whiteRookMoved := whiteRookMoved g; blackRookMoved := blackRookMoved g;
     enPassantTarget := enPassantTarget g; halfMoveClock := halfMoveClock g;
     fullMoveNumber := n; positionHistory := positionHistory g |}.

Definition with_positionHistory (g : GameState) (h : gmap string Z) : GameState :=
  {| board := board g; currentPlayer := currentPlayer g; moveHistory := moveHistory g;
     whiteKingMoved := whiteKingMoved g; blackKingMoved := blackKingMoved g;
     whiteRookMoved := whiteRookMoved g; blackRookMoved := blackRookMoved g;
     enPassantTarget := enPassantTarget g; halfMoveClock := halfMoveClock g;
     fullMoveNumber := fullMoveNumber g; positionHistory := h |}.

(** The index ranges of [for (int row = 0; row < 8; row++)] and of the
    loop over columns. *)
Definition rows : list Z := seqZ 0 8.
Definition cols : list Z := seqZ 0 8.

(** A loop body either falls through to the next iteration or returns
    from the enclosing function. *)
Inductive flow (A : Type) : Type :=
  | Continue
  | Return (a : A).
Arguments Continue {A}.
Arguments Return {A} a.

Fixpoint for_each {X A : Type} (xs : list X) (body : X -> option (flow A)) : option (flow A) :=
  match xs with
  | [] => Some Continue
  | x :: xs' =>
      match body x with
      | None => None
      | Some (Return a) => Some (Return a)
      | Some Continue => for_each xs' body
      end
  end.

(** The pieces of one colour in the order the nested loops over rows and
    columns meet them. *)
Definition pieces_of (b : Board) (color : Color) : list Piece :=
  List.filter (fun piece => Color_eqb (getColor piece) color)
    (omap (Board_getPiece b)
       (row ← rows; col ← cols; [mkPosition row col])).

(** The first loop of [GameState::isCheck]: [break] leaves the loop over
    columns only, so a king found in a later row replaces an earlier one.
    [None] stands for the local [kingPos] that was never assigned. *)
Definition locateKing (b : Board) (color : Color) : option Position :=
  foldl (fun kingPos row =>
           match
             List.find (fun pos =>
                          match Board_getPiece b pos with
                          | Some piece =>
                              PieceType_eqb (getType piece) KING &&
                              Color_eqb (getColor piece) color
                          | None => false
                          end) (map (mkPosition row) cols)
           with
           | Some pos => Some pos
           | None => kingPos
           end) None rows.

(** [GameState::isCheck]. Without a king of [color] on the board the
    second loop compares an unassigned [Position] with the first
    destination it meets, which is undefined; it returns [false] when
    there is nothing to compare with. *)
Definition isCheck (g : GameState) (color : Color) : option bool :=
  let opponentColor := if Color_eqb color WHITE then BLACK else WHITE in
  match locateKing (board g) color with
  | Some kingPos =>
      Some (existsb (fun piece => Piece_canMoveTo piece kingPos (board g))
                    (pieces_of (board g) opponentColor))
  | None =>
      if existsb (fun piece => negb (bool_decide (Piece_getValidMoves piece (board g) = [])))
                 (pieces_of (board g) opponentColor)
      then None else Some false
  end.

(** [GameState::isCheckmate]. The trial board [tempBoard] is built for
    every candidate move; the check that follows is [this->isCheck]. *)
Definition isCheckmate (g : GameState) (color : Color) : option bool :=
  inCheck ← isCheck g color;
  if negb inCheck then Some false
  else
    r ← for_each (pieces_of (board g) color) (fun piece =>
           let moves := Piece_getValidMoves piece (board g) in
           for_each moves (fun move =>
             let tempBoard := Board_movePiece (board g) (getPosition piece) move in
             stillInCheck ← isCheck g color;
             if negb stillInCheck then Some (Return false) else Some Continue));
    match r with
    | Return b => Some b
    | Continue => Some true
    end.

(** [GameState::isStalemate] *)
Definition isStalemate (g : GameState) (color : Color) : option bool :=
  inCheck ← isCheck g color;
  if (inCheck : bool) then Some false
  else
    r ← for_each (pieces_of (board g) color) (fun piece =>
           let moves := Piece_getValidMoves piece (board g) in
           if negb (bool_decide (moves = [])) then Some (Return false) else Some Continue);
    match r with
    | Return b => Some b
    | Continue => Some true
    end.

(** [GameState::isInsufficientMaterial] *)
Definition isInsufficientMaterial (g : GameState) : bool := false.

(** [GameState::isThreefoldRepetition] *)
Definition isThreefoldRepetition (g : GameState) : bool :=
  existsb (fun entry : string * Z => 3 <=? entry.2) (map_to_list (positionHistory g)).

(** [GameState::isDraw] *)
Definition isDraw (g : GameState) : bool :=
  if isInsufficientMaterial g then true
  else if isThreefoldRepetition g then true
  else if 50 <=? halfMoveClock g then true
  else false.

(** The body of the loop over [moves] in [GameState::getValidMoves]:
    [tempBoard] receives the candidate move, the test is
    [this->isCheck]. *)
Definition try_move (g : GameState) (pos : Position) (color : Color)
    (acc : option (list Position)) (move : Position) : option (list Position) :=
  validMoves ← acc;
  let tempBoard := Board_movePiece (board g) pos move in
  inCheck ← isCheck g color;
  if negb inCheck then Some (validMoves ++ [move]) else Some validMoves.

(** [GameState::getValidMoves] *)
Definition GameState_getValidMoves (g : GameState) (pos : Position) : option (list Position) :=
  match Board_getPiece (board g) pos with
  | None => Some []
  | Some piece =>
      let moves := Piece_getValidMoves piece (board g) in
      foldl (try_move g pos (getColor piece)) (Some []) moves
  end.

(** [toupper] on a [char]. *)
Definition toupper (c : ascii) : ascii :=
  let n := nat_of_ascii c in
  if (97 <=? n)%nat && (n <=? 122)%nat then ascii_of_nat (n - 32) else c.

(** [GameState::getPieceChar] *)
Definition getPieceChar (piece : Piece) : ascii :=
  let c : ascii :=
    match getType piece with
    | PAWN => "p"
    | ROOK => "r"
    | KNIGHT => "n"
    | BISHOP => "b"
    | QUEEN => "q"
    | KING => "k"
    end%char in
  if Color_eqb (getColor piece) WHITE then toupper c else c.

(** [GameState::getCastlingString] *)
Definition getCastlingString (g : GameState) : string :=
  let castling := EmptyString in
  let castling :=
    if negb (whiteKingMoved g) then
      let castling := if negb (whiteRookMoved g).1 then castling +:+ "K" else castling in
      if negb (whiteRookMoved g).2 then castling +:+ "Q" else castling
    else castling in
  let castling :=
    if negb (blackKingMoved g) then
      let castling := if negb (blackRookMoved g).1 then castling +:+ "k" else castling in
      if negb (blackRookMoved g).2 then castling +:+ "q" else castling
    else castling in
  if bool_decide (castling = EmptyString) then "-" else castling.

(** One iteration of the loop over rows in [GameState::getFEN];
    [emptyCount] never exceeds 8. *)
Definition fen_row (b : Board) (fen : string) (row : Z) : string :=
  let '(fen, emptyCount) :=
    foldl (fun (acc : string * Z) col =>
             let '(fen, emptyCount) := acc in
             match Board_getPiece b (mkPosition row col) with
             | Some piece =>
                 let '(fen, emptyCount) :=
                   if 0 <? emptyCount then (fen +:+ to_string emptyCount, 0)
                   else (fen, emptyCount) in
                 (fen +:+ String (getPieceChar piece) EmptyString, emptyCount)
             | None => (fen, emptyCount + 1)
             end) (fen, 0) cols in
  let fen := if 0 <? emptyCount then fen +:+ to_string emptyCount else fen in
  if row <? 7 then fen +:+ "/" else fen.

(** The first field of [GameState::getFEN]: the piece placement. *)
Definition fen_placement (b : Board) : string := foldl (fen_row b) EmptyString rows.

(** [GameState::getFEN] *)
Definition getFEN (g : GameState) : string :=
  let fen := fen_placement (board g) in
  let fen := fen +:+ " " in
  let fen := fen +:+ (if Color_eqb (currentPlayer g) WHITE then "w" else "b") in
  let fen := fen +:+ " " in
  let fen := fen +:+ getCastlingString g in
  let fen := fen +:+ " " in
  let fen := fen +:+ getNotation (enPassantTarget g) in
  let fen := fen +:+ " " in
  let fen := fen +:+ to_string (halfMoveClock g) in
  let fen := fen +:+ " " in
  let fen := fen +:+ to_string (fullMoveNumber g) in
  fen.

(** [GameState::handleCastling], [handleEnPassant] and [handlePromotion]:
    their bodies are empty. *)
Definition handleCastling (g : GameState) (move : Move) : GameState * Move := (g, move).
Definition handleEnPassant (g : GameState) (move : Move) : GameState * Move := (g, move).
Definition handlePromotion (g : GameState) (move : Move) : GameState * Move := (g, move).

(** [GameState::executeMove]. The mover is alive (the caller has just read
    it from the board), so the write through [move.getPiece()] reaches it
    wherever [movePiece] has left it. *)
Definition executeMove (g : GameState) (move : Move) : GameState :=
  let capturedPiece := Board_getPiece (board g) (getTo move) in
  let move :=
    match capturedPiece with
    | Some captured => setCapturedPiece (ptr_of captured) move
    | None => move
    end in
  let g := with_board g (Board_movePiece (board g) (getFrom move) (getTo move)) in
  let g := with_board g (Board_update (board g) (ptr_addr (getPiece move)) (setHasMoved true)) in
  let g := with_moveHistory g (moveHistory g ++ [move]) in
  with_currentPlayer g (if Color_eqb (currentPlayer g) WHITE then BLACK else WHITE).

(** [positionHistory[fen]++]: [operator[]] inserts a zero for a new key. *)
Definition count_position (h : gmap string Z) (fen : string) : gmap string Z :=
  <[fen := Int.incr (default 0 (h !! fen))]> h.

(** [GameState::updateGameState]; [moveHistory.back()] of an empty vector
    is undefined. *)
Definition updateGameState (g : GameState) : option GameState :=
  back ← last (moveHistory g);
  let g :=
    if nonnull (getCapturedPiece back) || PieceType_eqb (ptr_type (getPiece back)) PAWN
    then with_halfMoveClock g 0
    else with_halfMoveClock g (Int.incr (halfMoveClock g)) in
  let g :=
    if Color_eqb (currentPlayer g) WHITE
    then with_fullMoveNumber g (Int.incr (fullMoveNumber g))
    else g in
  let fen := getFEN g in
  Some (with_positionHistory g (count_position (positionHistory g) fen)).

(** [GameState::makeMove]: the returned flag and the state the call
    leaves behind. *)
Definition makeMove (g : GameState) (from to : Position) : option (bool * GameState) :=
  match Board_getPiece (board g) from with
  | None => Some (false, g)
  | Some piece =>
      if negb (Color_eqb (getColor piece) (currentPlayer g)) then Some (false, g)
      else if negb (Piece_canMoveTo piece to (board g)) then Some (false, g)
      else
        let move := Move_new from to (ptr_of piece) in
        let '(g, move) :=
          if PieceType_eqb (getType piece) KING then handleCastling g move
          else if PieceType_eqb (getType piece) PAWN then
            let '(g, move) := handleEnPassant g move in
            handlePromotion g move
          else (g, move) in
        let g := executeMove g move in
        g ← updateGameState g;
        Some (true, g)
  end.

(** The slot that owns the object at address [a], if one does. *)
Definition Board_owner (b : Board) (a : nat) : option Position :=
  List.find (fun pos =>
               match Board_getPiece b pos with
               | Some p => Nat.eqb (addr p) a
               | None => false
               end)
            (row ← rows; col ← cols; [mkPosition row col]).

(** What a call of [GameState::undoMove] leaves behind. [Restored g]: the
    state [g]. [Stale g slot p]: the members of [g], except that the slot
    [slot] of the board, empty in [g], holds the raw pointer [p] without
    being the one owner of a live object: either the object of [p] has been
    destroyed, or another slot owns it as well. A [Board] here cannot hold
    such a slot, so no call is followed from a [Stale] state. *)
Inductive undone : Type :=
  | Restored (g : GameState)
  | Stale (g : GameState) (slot : Position) (p : PiecePtr).

(** [unique_ptr<Piece>(lastMove.getCapturedPiece())] handed to
    [Board::setPiece]. On a valid square the slot destroys its occupant and
    takes the pointer; nothing is read through it. On an invalid square
    [setPiece] returns at once and its parameter deletes the object: the
    slot that owned it is left with the pointer, and deleting an object
    that no slot owns (it was destroyed before) is undefined. *)
Definition rewrap (g : GameState) (pos : Position) (captured : PiecePtr)
    : option (GameState * Position) :=
  if isValid pos then
    Some (with_board g (Board_setPiece (board g) pos None), pos)
  else
    owner ← Board_owner (board g) (ptr_addr captured);
    Some (with_board g (Board_setPiece (board g) owner None), owner).

(** [GameState::undoMove]. The write through [getPiece()] is undefined
    when no slot owns the mover. *)
Definition undoMove (g : GameState) : option undone :=
  match last (moveHistory g) with
  | None => Some (Restored g)
  | Some lastMove =>
      let g := with_moveHistory g (removelast (moveHistory g)) in
      let g := with_board g (Board_movePiece (board g) (getTo lastMove) (getFrom lastMove)) in
      restored ←
        match getCapturedPiece lastMove with
        | Some captured =>
            '(g, slot) ← rewrap g (getTo lastMove) captured;
            Some (g, Some (slot, captured))
        | None => Some (g, None)
        end;
      let '(g, stale) := restored in
      mover ← Board_deref (board g) (ptr_addr (getPiece lastMove));
      let g := with_board g (Board_update (board g) (ptr_addr (getPiece lastMove))
                               (setHasMoved (negb (getHasMoved mover)))) in
      let g := with_currentPlayer g
                 (if Color_eqb (currentPlayer g) WHITE then BLACK else WHITE) in
      Some match stale with
           | Some (slot, captured) => Stale g slot captured
           | None => Restored g
           end
  end.

(** [make_unique<Pawn>(color, position)] at address [a]. *)
Definition new_piece (a : nat) (type : PieceType) (color : Color) (position : Position) : Piece :=
  {| addr := a; getType := type; getColor := color;
     getPosition := position; getHasMoved := false |}.

(** The loop of [GameState::initializeBoard] that places the pawns;
    objects get consecutive addresses in the order they are created. *)
Definition initializePawns (b : Board) : Board :=
  foldl (fun b col =>
           let b := Board_setPiece b (mkPosition 1 col)
                      (Some (new_piece (Z.to_nat (2 * col)) PAWN BLACK (mkPosition 1 col))) in
           Board_setPiece b (mkPosition 6 col)
             (Some (new_piece (Z.to_nat (2 * col + 1)) PAWN WHITE (mkPosition 6 col))))
        b cols.

(** Modelled from the spec: the back rank of the standard starting
    position, files a to h (the tests move the knight from g1, the bishop
    from f1 and the queens from d1 and d8). *)
Definition back_rank : list PieceType :=
  [ROOK; KNIGHT; BISHOP; QUEEN; KING; BISHOP; KNIGHT; ROOK].

(** Modelled from the spec: the rest of [GameState::initializeBoard], which
    the source elides ([implementation for other pieces]): the officers of
    the standard starting position, Black on rank 8 (row 0) and White on
    rank 1 (row 7), each created on its own square like the pawns. *)
Definition initializeOfficers (b : Board) : Board :=
  foldl (fun b (ct : Z * PieceType) =>
           let '(col, type) := ct in
           let b := Board_setPiece b (mkPosition 0 col)
                      (Some (new_piece (Z.to_nat (16 + 2 * col)) type BLACK (mkPosition 0 col))) in
           Board_setPiece b (mkPosition 7 col)
             (Some (new_piece (Z.to_nat (17 + 2 * col)) type WHITE (mkPosition 7 col))))
        b (zip cols back_rank).

(** [GameState::initializeBoard] *)
Definition initializeBoard (b : Board) : Board :=
  initializeOfficers (initializePawns b).

(** [GameState::GameState()]. The constructor gives no value to
    [whiteRookMoved], [blackRookMoved] and [enPassantTarget]; whatever
    they hold is a parameter here. *)
Definition GameState_new (whiteRooks blackRooks : bool * bool) (enPassant : Position) : GameState :=
  {| board := initializeBoard Board_new;
     currentPlayer := WHITE;
     moveHistory := [];
     whiteKingMoved := false;
     blackKingMoved := false;
     whiteRookMoved := whiteRooks;
     blackRookMoved := blackRooks;
     enPassantTarget := enPassant;
     halfMoveClock := 0;
     fullMoveNumber := 1;
     positionHistory := ∅ |}.

(** ** The rules as the specification words them *)

(** The position in which king safety is judged: the live state with the
    candidate move applied to the board, as [tempBoard.movePiece] does. *)
Definition trial (g : GameState) (from to : Position) : GameState :=
  with_board g (Board_movePiece (board g) from to).

(** A legal move of [color]: a pseudo-legal move of one of its pieces
    that, when applied, does not leave the mover's own king in check. *)
Definition is_legal_move (g : GameState) (color : Color) (from to : Position) : bool :=
  match Board_getPiece (board g) from with
  | Some piece =>
      Color_eqb (getColor piece) color &&
      contains (Piece_getValidMoves piece (board g)) to &&
      bool_decide (isCheck (trial g from to) color = Some false)
  | None => false
  end.

(** All legal moves of [color], square by square. *)
Definition legal_moves (g : GameState) (color : Color) : list (Position * Position) :=
  from ← (row ← rows; col ← cols; [mkPosition row col]);
  match Board_getPiece (board g) from with
  | Some piece =>
      to ← Piece_getValidMoves piece (board g);
      if is_legal_move g color from to then [(from, to)] else []
  | None => []
  end.

(** Checkmate: in check, and no legal move for any piece of the colour. *)
Definition checkmate_by_the_rules (g : GameState) (color : Color) : Prop :=
  isCheck g color = Some true /\ legal_moves g color = [].

(** Stalemate: not in check, and no legal move for the colour. *)
Definition stalemate_by_the_rules (g : GameState) (color : Color) : Prop :=
  isCheck g color = Some false /\ legal_moves g color = [].

(** Modelled from the spec: a piece of the specification carries the
    square of the slot that owns it, and its pseudo-legal destinations,
    the squares it attacks, are cast from there. [in_place] is the state
    with the [position] member of every piece naming the square the piece
    stands on, as calls of [Piece::setPosition] would maintain it; check
    and legality judged on it are check and legality on the squares where
    the pieces actually stand. *)
Definition in_place_board (b : Board) : Board :=
  {| squares :=
       imap (fun row r =>
               imap (fun col slot =>
                       setPosition (mkPosition (Z.of_nat row) (Z.of_nat col)) <$> slot) r)
            (squares b) |}.

Definition in_place (g : GameState) : GameState :=
  with_board g (in_place_board (board g)).

(** The position key of the specification: exactly the pieces, the side
    to move, the castling rights and the en-passant target, that is the
    first four fields of the FEN string. *)
Definition PositionKey (g : GameState) : string :=
  fen_placement (board g) +:+ " " +:+
  (if Color_eqb (currentPlayer g) WHITE then "w" else "b") +:+ " " +:+
  getCastlingString g +:+ " " +:+ getNotation (enPassantTarget g).

(** How often the position of [g] occurs among the states [history]. *)
Definition occurrences (g : GameState) (history : list GameState) : nat :=
  length (List.filter (fun h => bool_decide (PositionKey h = PositionKey g)) history).

(** ** Games and positions used as examples *)

(** [Position("e2")] for a literal square name. *)
Definition sq (notation : string) : Position :=
  match Position_of_notation notation with
  | Ok p => p
  | Throw _ => mkPosition (-1) (-1)
  end.

(** A freshly constructed game; the members the constructor leaves without
    a value hold [false] and the coordinate (0, 0). *)
Definition start : GameState :=
  GameState_new (false, false) (false, false) (mkPosition 0 0).

(** What a caller does to a game: submit a move, or take one back. *)
Inductive action : Type :=
  | Submit (from to : string)
  | Undo.

(** One call; a submitted move has to be accepted, and taking a move
    back has to leave every slot the owner of what it holds. *)
Definition perform (g : GameState) (a : action) : option GameState :=
  match a with
  | Submit from to =>
      match makeMove g (sq from) (sq to) with
      | Some (true, g') => Some g'
      | _ => None
      end
  | Undo =>
      match undoMove g with
      | Some (Restored g') => Some g'
      | _ => None
      end
  end.

(** The states a game goes through, one per call, as the test suite
    drives it. *)
Fixpoint play (g : GameState) (script : list action) : option (list GameState) :=
  match script with
  | [] => Some []
  | a :: script' =>
      g' ← perform g a;
      history ← play g' script';
      Some (g' :: history)
  end.

(** What [observe] sees in the state a game ends in. *)
Definition after {A : Type} (g : GameState) (script : list action)
    (observe : GameState -> A) : option A :=
  history ← play g script; Some (observe (List.last history g)).

(** The flag [makeMove] returns. *)
Definition accepted (g : GameState) (from to : string) : option bool :=
  fst <$> makeMove g (sq from) (sq to).

(** A piece created on a square of an otherwise given board, the way
    [initializeBoard] creates the pawns. *)
Definition place (b : Board) (a : nat) (type : PieceType) (color : Color) (square : string) : Board :=
  Board_setPiece b (sq square) (Some (new_piece a type color (sq square))).

(** A game state around a given board: no history, no castling rights. *)
Definition position_of (b : Board) (player : Color) : GameState :=
  {| board := b; currentPlayer := player; moveHistory := [];
     whiteKingMoved := true; blackKingMoved := true;
     whiteRookMoved := (true, true); blackRookMoved := (true, true);
     enPassantTarget := mkPosition 0 0; halfMoveClock := 0; fullMoveNumber := 1;
     positionHistory := ∅ |}.

(** White: king d3, pawn a2. Black: king e8, pawn e4. White to move; the
    pawn on e4 attacks d3. The board is set up square by square; no
    sequence of calls leads to it from a new game. *)
Definition check_by_pawn : GameState :=
  position_of
    (place (place (place (place Board_new 0 KING WHITE "d3") 1 PAWN WHITE "a2")
                  2 KING BLACK "e8") 3 PAWN BLACK "e4")
    WHITE.

(** The state a game from the start ends in, the start itself when one of
    the calls is not followed. *)
Definition final_state (script : list action) : GameState :=
  default start (after start script id).

(** The fool's mate of the test suite. *)
Definition fools_mate : list action :=
  [Submit "f2" "f4"; Submit "e7" "e6"; Submit "g2" "g4"; Submit "d8" "h4"].

(** Black's bishop goes to b4, where only the pawn on d2 stands between
    it and White's king. *)
Definition pinned_pawn : list action :=
  [Submit "e2" "e4"; Submit "e7" "e6"; Submit "a2" "a4"; Submit "f8" "b4"].

(** A game of 46 accepted calls after which White, to move, has the king
    on e1, the bishop on f1 and pawns on c4, d2, e4 and f2 against Black's
    rooks on a4 and h1, bishops on b4 and g4, queen on h4, knights on c6
    and h6, king on e8 and six pawns. *)
Definition stalemate_game : list action :=
  [ Submit "a2" "a3"; Submit "e7" "e5";
    Submit "e2" "e4"; Submit "f8" "a3";
    Submit "b2" "b4"; Submit "a3" "b4";
    Submit "c2" "c4"; Submit "c7" "c5";
    Submit "h2" "h4"; Submit "d8" "h4";
    Submit "g1" "f3"; Submit "h4" "c7";
    Submit "h1" "h7"; Submit "h8" "h7";
    Submit "f3" "h3"; Submit "g8" "f6";
    Submit "h3" "f3"; Submit "h7" "g8";
    Submit "f3" "e2"; Submit "g8" "h1";
    Submit "a1" "a7"; Submit "a8" "a7";
    Submit "e2" "h3"; Submit "d7" "d6";
    Submit "d1" "c2"; Submit "c8" "h3";
    Submit "g2" "g4"; Submit "h3" "g4";
    Submit "b1" "a3"; Submit "b8" "c6";
    Submit "c2" "e2"; Submit "a7" "b8";
    Submit "e2" "c2"; Submit "b8" "a3";
    Submit "c2" "e2"; Submit "a3" "b8";
    Submit "c1" "a3"; Submit "b8" "a3";
    Submit "e2" "c2"; Submit "a3" "b8";
    Submit "c2" "f3"; Submit "f6" "h6";
    Submit "f3" "e2"; Submit "c7" "h4";
    Submit "e2" "a4"; Submit "b8" "a4" ].

(** The position [stalemate_game] ends in. *)
Definition stalemate_position : GameState := final_state stalemate_game.

(** One round of the king's knights stepping between the two squares each
    of them can reach. *)
Definition knight_round : list action :=
  [Submit "f3" "h3"; Submit "f6" "h6"; Submit "h3" "f3"; Submit "h6" "f6"].

(** Both king's knights go out and make two rounds: ten plies. *)
Definition knight_shuffle : list action :=
  [Submit "g1" "f3"; Submit "g8" "f6"] ++ knight_round ++ knight_round.

(** Ninety-nine plies without a capture or a pawn move: the knights go
    out, make twenty-four rounds, and White's knight steps to h3. The
    hundredth ply is the step of Black's knight from f6 to h6. *)
Definition ninety_nine_plies : list action :=
  [Submit "g1" "f3"; Submit "g8" "f6"] ++ concat (replicate 24 knight_round)
    ++ [Submit "f3" "h3"].

(** The state after [ninety_nine_plies], and Black's knight that makes
    the hundredth. *)
Definition after_ninety_nine : GameState := final_state ninety_nine_plies.
Definition g8_knight : Piece := setHasMoved true (new_piece 28 KNIGHT BLACK (sq "g8")).

(** The [hasMoved] member of the piece on a square. *)
Definition hasMoved_at (square : string) (g : GameState) : option bool :=
  getHasMoved <$> Board_getPiece (board g) (sq square).

(** The [position] member of the piece on a square. *)
Definition position_member_at (square : string) (g : GameState) : option Position :=
  getPosition <$> Board_getPiece (board g) (sq square).

(** The number of times [updateGameState] has counted the FEN string of
    the state itself. *)
Definition own_count (g : GameState) : option Z := positionHistory g !! getFEN g.

(** How often the position of the last state occurs in a history. *)
Definition last_occurrences (history : list GameState) : option nat :=
  g ← last history; Some (occurrences g history).

(** ** Definitions for the further properties *)

(** The shape [Board::Board()] gives the grid: eight rows of eight slots. *)
Definition eight_by_eight (b : Board) : bool :=
  Nat.eqb (length (squares b)) 8 &&
  forallb (fun r : list (option Piece) => Nat.eqb (length r) 8) (squares b).

(** The squares of the board in the order of the nested loops over rows
    and columns. *)
Definition all_squares : list Position :=
  row ← rows; col ← cols; [mkPosition row col].

(** The locals [direction], [forward] and [doubleForward] of
    [Pawn::getValidMoves], and the two entries of its [captures]. *)
Definition pawn_direction (self : Piece) : Z :=
  if Color_eqb (getColor self) WHITE then -1 else 1.

Definition pawn_forward (self : Piece) : Position :=
  mkPosition (Int.add (getRow (getPosition self)) (pawn_direction self))
             (getCol (getPosition self)).

Definition pawn_doubleForward (self : Piece) : Position :=
  mkPosition (Int.add (getRow (getPosition self)) (Int.mul 2 (pawn_direction self)))
             (getCol (getPosition self)).

Definition pawn_captures (self : Piece) : list Position :=
  [ mkPosition (Int.add (getRow (getPosition self)) (pawn_direction self))
               (Int.sub (getCol (getPosition self)) 1);
    mkPosition (Int.add (getRow (getPosition self)) (pawn_direction self))
               (Int.add (getCol (getPosition self)) 1) ].

(** A capture square the pawn may take: on the board and holding a piece
    of the other colour. *)
Definition capturable (self : Piece) (board : Board) (capture : Position) : bool :=
  isValid capture &&
  match Board_getPiece board capture with
  | Some target => negb (Color_eqb (getColor target) (getColor self))
  | None => false
  end.

(** The record [executeMove] appends to the history: the move as
    [makeMove] creates it, with the occupant of the destination noted as
    captured. *)
Definition recorded_move (g : GameState) (from to : Position) (piece : Piece) : Move :=
  match Board_getPiece (board g) to with
  | Some captured => setCapturedPiece (ptr_of captured) (Move_new from to (ptr_of piece))
  | None => Move_new from to (ptr_of piece)
  end.

(** The state a call of [makeMove] leaves behind, the state itself when
    the call is undefined. *)
Definition state_after (g : GameState) (from to : Position) : GameState :=
  match makeMove g from to with
  | Some (_, g') => g'
  | None => g
  end.

(** The state a call of [undoMove] leaves behind. *)
Definition state_undone (g : GameState) : GameState :=
  match undoMove g with
  | Some (Restored g') => g'
  | _ => g
  end.

(** No two slots own objects at the same address. *)
Definition distinct_addrs (b : Board) : bool :=
  forallb (fun pos1 =>
    forallb (fun pos2 =>
      match Board_getPiece b pos1, Board_getPiece b pos2 with
      | Some p1, Some p2 => implb (Nat.eqb (addr p1) (addr p2)) (Position_eqb pos1 pos2)
      | _, _ => true
      end) all_squares) all_squares.

(** Every piece stands on the square its [position] member names, as
    right after [initializeBoard]. *)
Definition created_in_place (b : Board) : bool :=
  forallb (fun pos =>
    match Board_getPiece b pos with
    | Some p => Position_eqb (getPosition p) pos
    | None => true
    end) all_squares.

(** The same object, whatever its [hasMoved] flag: same address, type,
    colour and [position] member. *)
Definition same_object (p q : Piece) : Prop :=
  addr p = addr q /\ getType p = getType q /\
  getColor p = getColor q /\ getPosition p = getPosition q.

(** The states a caller can bring a game to: any number of calls of
    [makeMove], accepted or not, and of [undoMove], as long as every slot
    stays the owner of what it holds. *)
Inductive reaches (g0 : GameState) : GameState -> Prop :=
  | reaches_here : reaches g0 g0
  | reaches_makeMove (g : GameState) (from to : Position) (ok : bool) (g' : GameState) :
      reaches g0 g -> makeMove g from to = Some (ok, g') -> reaches g0 g'
  | reaches_undoMove (g g' : GameState) :
      reaches g0 g -> undoMove g = Some (Restored g') -> reaches g0 g'.

(** The side to move as the length of the history determines it when
    White begins. *)
Definition side_by_parity (g : GameState) : Color :=
  if Nat.even (length (moveHistory g)) then WHITE else BLACK.

(** The test of the first loop of [GameState::isCheck]: the square holds
    a king of the colour. *)
Definition holds_king (b : Board) (color : Color) (pos : Position) : bool :=
  match Board_getPiece b pos with
  | Some piece =>
      PieceType_eqb (getType piece) KING && Color_eqb (getColor piece) color
  | None => false
  end.

(** ** Inputs of the worked instances *)

(** The white pawn [initializeBoard] creates on e2. *)
Definition e2_pawn : Piece := new_piece 9 PAWN WHITE (sq "e2").

(** A white pawn created on a7, one step from the last rank. *)
Definition a7_pawn : Piece := new_piece 0 PAWN WHITE (sq "a7").

(** White: pawn e4. Black: pawn d5. White to move and able to capture. *)
Definition pawn_takes_pawn : GameState :=
  position_of (place (place Board_new 0 PAWN WHITE "e4") 1 PAWN BLACK "d5") WHITE.

(** The two pawns of [pawn_takes_pawn]. *)
Definition e4_pawn : Piece := new_piece 0 PAWN WHITE (sq "e4").
Definition d5_pawn : Piece := new_piece 1 PAWN BLACK (sq "d5").

(** The game after 1. e4. *)
Definition after_e4 : GameState := state_after start (sq "e2") (sq "e4").

(** The game after [a2a3 e7e6 h2h3], in which Black's bishop can take the
    pawn on a3, and the two pieces. *)
Definition before_capture : GameState :=
  final_state [Submit "a2" "a3"; Submit "e7" "e6"; Submit "h2" "h3"].
Definition f8_bishop : Piece := new_piece 26 BISHOP BLACK (sq "f8").
Definition a2_pawn : Piece := setHasMoved true (new_piece 1 PAWN WHITE (sq "a2")).

(** * Properties *)

(** Closes a goal about a concrete game by running the definitions. *)
Ltac run := vm_compute; reflexivity.

(** ** Machine integers *)

Lemma int_wrap_small z : Int.int_min <= z <= Int.int_max -> Int.int_wrap z = z.
Proof.
  unfold Int.int_wrap, Int.int_min, Int.int_max. intros H.
  rewrite Z.mod_small by lia. lia.
Qed.

Lemma incr_small z : Int.int_min <= z < Int.int_max -> Int.incr z = z + 1.
Proof.
  intros H. unfold Int.incr, Int.add. apply int_wrap_small. lia.
Qed.

Lemma int_of_char_range c : -128 <= int_of_char c <= 127.
Proof.
  unfold int_of_char. pose proof (nat_ascii_bounded c) as Hb.
  destruct (Z.ltb_spec (Z.of_nat (nat_of_ascii c)) 128); lia.
Qed.

(** ** Position: notation *)

Lemma Position_eqb_eq p q : Position_eqb p q = true <-> p = q.
Proof.
  destruct p as [r c], q as [r' c']. unfold Position_eqb. simpl.
  rewrite andb_true_iff, !Z.eqb_eq. split.
  - intros [-> ->]. reflexivity.
  - intros [= -> ->]. split; reflexivity.
Qed.

Lemma Position_eqb_refl p : Position_eqb p p = true.
Proof. apply Position_eqb_eq. reflexivity. Qed.

Lemma isValid_bounds p :
  isValid p = true <-> 0 <= getRow p < 8 /\ 0 <= getCol p < 8.
Proof.
  unfold isValid. rewrite !andb_true_iff, !Z.leb_le, !Z.ltb_lt. lia.
Qed.

(** What the constructor computes on a string of two characters. *)
Lemma Position_of_notation_two f r :
  Position_of_notation (String f (String r EmptyString)) =
  Ok (mkPosition (8 - (int_of_char r - 48)) (int_of_char f - 97)).
Proof.
  unfold Position_of_notation, string_at. simpl.
  pose proof (int_of_char_range f). pose proof (int_of_char_range r).
  change (int_of_char "a") with 97. change (int_of_char "0") with 48.
  unfold Int.sub.
  rewrite (int_wrap_small (int_of_char f - 97)) by (unfold Int.int_min, Int.int_max; lia).
  rewrite (int_wrap_small (int_of_char r - 48)) by (unfold Int.int_min, Int.int_max; lia).
  rewrite (int_wrap_small (8 - _)) by (unfold Int.int_min, Int.int_max; lia).
  reflexivity.
Qed.

Lemma is_file_letter_spec c : is_file_letter c = true <-> 0 <= int_of_char c - 97 < 8.
Proof.
  unfold is_file_letter, int_of_char. pose proof (nat_ascii_bounded c).
  rewrite andb_true_iff, !Nat.leb_le.
  destruct (Z.ltb_spec (Z.of_nat (nat_of_ascii c)) 128); lia.
Qed.

Lemma is_rank_digit_spec c : is_rank_digit c = true <-> 0 <= 8 - (int_of_char c - 48) < 8.
Proof.
  unfold is_rank_digit, int_of_char. pose proof (nat_ascii_bounded c).
  rewrite andb_true_iff, !Nat.leb_le.
  destruct (Z.ltb_spec (Z.of_nat (nat_of_ascii c)) 128); lia.
Qed.

Lemma length_two (s : string) :
  String.length s = 2%nat -> exists f r, s = String f (String r EmptyString).
Proof.
  destruct s as [|f [|r [|x s]]]; simpl; try discriminate.
  intros _. exists f, r. reflexivity.
Qed.

Lemma is_algebraic_length s : is_algebraic s = true -> String.length s = 2%nat.
Proof.
  destruct s as [|f [|r [|x s]]]; simpl; try discriminate. reflexivity.
Qed.

(** C8, as the specification words it, fails: the two characters [z9]
    are not of the form [[a-h][1-8]], yet the constructor accepts them
    (and yields the off-board coordinate row -1, column 25). *)
Lemma notation_z9_is_not_rejected : ~ rejects_exactly_non_algebraic "z9".
Proof.
  unfold rejects_exactly_non_algebraic. intros [_ H].
  apply H. vm_compute. reflexivity.
Qed.

(** C8 (amended): constructing a [Position] from a notation string throws
    exactly when the string does not have two characters; every string of
    the form [[a-h][1-8]] is accepted; and an accepted string yields a
    coordinate inside the board exactly when it has that form. *)
Theorem Position_of_notation_rejects_by_length (s : string) :
  (throws (Position_of_notation s) <-> String.length s <> 2%nat) /\
  (is_algebraic s = true -> exists p, Position_of_notation s = Ok p) /\
  (forall p, Position_of_notation s = Ok p ->
             (isValid p = true <-> is_algebraic s = true)).
Proof.
  split; [|split].
  - unfold Position_of_notation.
    destruct (Nat.eqb_spec (String.length s) 2) as [E|E]; simpl; tauto.
  - intros H. apply is_algebraic_length, length_two in H as (f & r & ->).
    rewrite Position_of_notation_two. eauto.
  - intros p Hp.
    assert (String.length s = 2%nat) as Hlen.
    { unfold Position_of_notation in Hp.
      destruct (Nat.eqb_spec (String.length s) 2); [assumption | discriminate]. }
    apply length_two in Hlen as (f & r & ->).
    rewrite Position_of_notation_two in Hp. injection Hp as <-.
    rewrite isValid_bounds. simpl.
    rewrite andb_true_iff, is_file_letter_spec, is_rank_digit_spec. tauto.
Qed.

(** C9: for every valid coordinate (both components in [0,7]), parsing the
    notation it produces gives the coordinate back. *)
Theorem notation_round_trip (c : Position) :
  isValid c = true -> Position_of_notation (getNotation c) = Ok c.
Proof.
  destruct c as [r k]. rewrite isValid_bounds. simpl. intros [Hr Hk].
  assert (r = 0 \/ r = 1 \/ r = 2 \/ r = 3 \/ r = 4 \/ r = 5 \/ r = 6 \/ r = 7) as Er by lia.
  assert (k = 0 \/ k = 1 \/ k = 2 \/ k = 3 \/ k = 4 \/ k = 5 \/ k = 6 \/ k = 7) as Ek by lia.
  clear Hr Hk.
  repeat (destruct Er as [-> | Er]); try subst r;
    repeat (destruct Ek as [-> | Ek]); try subst k; reflexivity.
Qed.

Lemma notation_round_trip_e2 :
  isValid (mkPosition 6 4) = true /\
  getNotation (mkPosition 6 4) = "e2" /\
  Position_of_notation (getNotation (mkPosition 6 4)) = Ok (mkPosition 6 4).
Proof.
  split; [reflexivity | split; [reflexivity |]].
  apply (notation_round_trip (mkPosition 6 4)). reflexivity.
Defined.

(** ** makeMove: acceptance and rejection *)

Lemma Color_eqb_eq a b : Color_eqb a b = true <-> a = b.
Proof. unfold Color_eqb. apply bool_decide_eq_true. Qed.

Lemma updateGameState_after_executeMove g move :
  exists g', updateGameState (executeMove g move) = Some g'.
Proof.
  unfold updateGameState, executeMove. cbn [moveHistory with_currentPlayer with_moveHistory].
  rewrite last_snoc. simpl. eauto.
Qed.

(** The value [makeMove] computes once the three guards have passed. *)
Lemma makeMove_unfold g from to :
  makeMove g from to =
  match Board_getPiece (board g) from with
  | None => Some (false, g)
  | Some piece =>
      if negb (Color_eqb (getColor piece) (currentPlayer g)) then Some (false, g)
      else if negb (Piece_canMoveTo piece to (board g)) then Some (false, g)
      else
        match updateGameState (executeMove g (Move_new from to (ptr_of piece))) with
        | Some g' => Some (true, g')
        | None => None
        end
  end.
Proof.
  unfold makeMove. destruct (Board_getPiece (board g) from) as [piece|]; [|reflexivity].
  destruct (negb (Color_eqb _ _)); [reflexivity|].
  destruct (negb (Piece_canMoveTo _ _ _)); [reflexivity|].
  unfold handleCastling, handleEnPassant, handlePromotion.
  destruct (PieceType_eqb (getType piece) KING), (PieceType_eqb (getType piece) PAWN);
    reflexivity.
Qed.

(** Acceptance depends on the occupant of [from], on whose turn it is and
    on the pseudo-legal destinations of the piece, and on nothing else. *)
Lemma makeMove_accepts g from to piece :
  Board_getPiece (board g) from = Some piece ->
  getColor piece = currentPlayer g ->
  Piece_canMoveTo piece to (board g) = true ->
  exists g', makeMove g from to = Some (true, g').
Proof.
  intros Hp Hc Hm. rewrite makeMove_unfold, Hp.
  apply Color_eqb_eq in Hc. rewrite Hc, Hm. simpl.
  destruct (updateGameState_after_executeMove g (Move_new from to (ptr_of piece))) as [g' ->].
  eauto.
Qed.

(** An accepted call leaves [state_after] behind. *)
Lemma makeMove_state_after g from to :
  fst <$> makeMove g from to = Some true ->
  makeMove g from to = Some (true, state_after g from to).
Proof.
  unfold state_after. destruct (makeMove g from to) as [[ok g']|]; [|discriminate].
  simpl. intros [= ->]. reflexivity.
Qed.

(** C10: [makeMove] always returns, and whenever it returns failure (no
    piece at the source, wrong turn, or a destination the piece cannot
    move to) the whole game state, board, current player, history,
    castling flags, clocks and repetition counts, is what it was. *)
Theorem makeMove_failure_changes_nothing (g : GameState) (from to : Position) :
  exists ok g', makeMove g from to = Some (ok, g') /\ (ok = false -> g' = g).
Proof.
  rewrite makeMove_unfold.
  destruct (Board_getPiece (board g) from) as [piece|]; [|eauto].
  destruct (negb (Color_eqb _ _)); [eauto|].
  destruct (negb (Piece_canMoveTo _ _ _)); [eauto|].
  destruct (updateGameState_after_executeMove g (Move_new from to (ptr_of piece))) as [g' ->].
  exists true, g'. split; [reflexivity | discriminate].
Qed.

(** C1 (the code diverges): [makeMove] has no king-safety step. After the
    fool's mate of the test suite the queen on h4 attacks White's king on
    e1; the pawn move a2a3 does nothing about it, and it is accepted and
    leaves the king attacked. After [pinned_pawn] only the pawn on d2
    stands between the bishop on b4 and the king, which is not attacked;
    the pawn's step to d3 is accepted and leaves the king attacked. Check
    is judged on the squares the pieces stand on. *)
Theorem makeMove_accepts_move_leaving_king_in_check :
  (after start fools_mate (fun g => isCheck (in_place g) WHITE) = Some (Some true) /\
   after start fools_mate (fun g => isCheck (in_place (trial g (sq "a2") (sq "a3"))) WHITE)
     = Some (Some true) /\
   after start fools_mate (fun g => accepted g "a2" "a3") = Some (Some true) /\
   after start (fools_mate ++ [Submit "a2" "a3"]) (fun g => isCheck (in_place g) WHITE)
     = Some (Some true)) /\
  (after start pinned_pawn (fun g => isCheck (in_place g) WHITE) = Some (Some false) /\
   after start pinned_pawn (fun g => isCheck (in_place (trial g (sq "d2") (sq "d3"))) WHITE)
     = Some (Some true) /\
   after start pinned_pawn (fun g => accepted g "d2" "d3") = Some (Some true) /\
   after start (pinned_pawn ++ [Submit "d2" "d3"]) (fun g => isCheck (in_place g) WHITE)
     = Some (Some true)).
Proof.
  repeat split; run.
Qed.

(** ** Check, checkmate, stalemate and the king-safety filter *)

Section Loops.
Context {X A : Type}.
Variable body : X -> option (flow A).

Lemma for_each_continue (xs : list X) :
  (forall x, In x xs -> body x = Some Continue) ->
  for_each xs body = Some Continue.
Proof.
  induction xs as [|x xs IH]; intros H; simpl; [reflexivity|].
  rewrite (H x) by (left; reflexivity).
  apply IH. intros y Hy. apply H. right. exact Hy.
Qed.

Lemma for_each_return (xs : list X) (a : A) :
  for_each xs body = Some (Return a) ->
  exists x, In x xs /\ body x = Some (Return a).
Proof.
  induction xs as [|x xs IH]; simpl; [discriminate|].
  destruct (body x) as [[|b]|] eqn:E; try discriminate.
  - intros H. destruct (IH H) as (y & Hy & Hb). exists y. split; [right|]; assumption.
  - intros [= ->]. exists x. split; [left; reflexivity | assumption].
Qed.

Lemma for_each_all_continue (xs : list X) :
  for_each xs body = Some Continue ->
  forall x, In x xs -> body x = Some Continue.
Proof.
  induction xs as [|x xs IH]; simpl; [tauto|].
  destruct (body x) as [[|b]|] eqn:E; try discriminate.
  intros H y [<-|Hy]; [exact E | exact (IH H y Hy)].
Qed.
End Loops.

Lemma list_bind_nil {X Y : Type} (l : list X) (f : X -> list Y) :
  (forall x, In x l -> f x = []) -> l ≫= f = [].
Proof.
  induction l as [|x l IH]; intros H; [reflexivity|].
  cbn. rewrite (H x) by (left; reflexivity). simpl.
  apply IH. intros y Hy. apply H. right. exact Hy.
Qed.

Section KingSafety.
Variable g : GameState.
Variable color : Color.

(** The trial board never reaches the test that follows it: the answer
    of [isCheckmate] is the answer of [isCheck]. *)
Lemma isCheckmate_is_isCheck : isCheckmate g color = isCheck g color.
Proof.
  unfold isCheckmate. destruct (isCheck g color) as [[|]|]; simpl; try reflexivity.
  rewrite for_each_continue; [reflexivity|].
  intros piece _. apply for_each_continue. intros move _. reflexivity.
Qed.

Lemma try_move_not_in_check pos moves acc :
  isCheck g color = Some false ->
  foldl (try_move g pos color) (Some acc) moves = Some (acc ++ moves).
Proof.
  intros H. revert acc.
  induction moves as [|m moves IH]; intros acc; cbn [foldl].
  - rewrite app_nil_r. reflexivity.
  - unfold try_move at 2. cbn [mbind option_bind]. rewrite H. cbn [mbind option_bind negb].
    rewrite IH, <- app_assoc. reflexivity.
Qed.

Lemma try_move_in_check pos moves acc :
  isCheck g color = Some true ->
  foldl (try_move g pos color) (Some acc) moves = Some acc.
Proof.
  intros H. revert acc.
  induction moves as [|m moves IH]; intros acc; cbn [foldl].
  - reflexivity.
  - unfold try_move at 2. cbn [mbind option_bind]. rewrite H. cbn [mbind option_bind negb].
    apply IH.
Qed.

(** [isStalemate] answers [true] exactly when the side is not in check
    and none of its pieces has a pseudo-legal destination. *)
Lemma isStalemate_true_iff :
  isStalemate g color = Some true <->
  isCheck g color = Some false /\
  forall piece, In piece (pieces_of (board g) color) ->
                Piece_getValidMoves piece (board g) = [].
Proof.
  unfold isStalemate. destruct (isCheck g color) as [[|]|]; simpl.
  - split; [discriminate | intros [[=] _]].
  - destruct (for_each _ _) as [[|b]|] eqn:E; simpl.
    + split; [|reflexivity]. intros _. split; [reflexivity|].
      intros piece Hin.
      pose proof (for_each_all_continue _ _ E piece Hin) as Hb. simpl in Hb.
      destruct (bool_decide_reflect (Piece_getValidMoves piece (board g) = []));
        [assumption | discriminate].
    + apply for_each_return in E as (piece & Hin & Hb).
      destruct (bool_decide_reflect (Piece_getValidMoves piece (board g) = [])) as [Hx|Hx];
        simpl in Hb; [discriminate|]. injection Hb as <-.
      split; [discriminate|]. intros [_ H]. elim Hx. apply H, Hin.
    + split; [discriminate|]. intros [_ H]. exfalso.
      rewrite for_each_continue in E; [discriminate|].
      intros piece Hin. rewrite (H piece Hin). reflexivity.
  - split; [discriminate | intros [[=] _]].
Qed.

(** A side the code reports stalemated has no legal move. *)
Lemma isStalemate_no_legal_move :
  isStalemate g color = Some true -> legal_moves g color = [].
Proof.
  rewrite isStalemate_true_iff. intros [_ H]. unfold legal_moves.
  apply list_bind_nil. intros from Hfrom.
  destruct (Board_getPiece (board g) from) as [piece|] eqn:Hp; [|reflexivity].
  destruct (Color_eqb (getColor piece) color) eqn:Hc.
  - rewrite H; [reflexivity|]. unfold pieces_of.
    apply filter_In. split; [|exact Hc].
    apply list_elem_of_In, list_elem_of_omap. exists from.
    split; [apply list_elem_of_In, Hfrom | exact Hp].
  - apply list_bind_nil. intros to _. unfold is_legal_move. rewrite Hp, Hc. reflexivity.
Qed.
End KingSafety.

(** The filter of [GameState::getValidMoves] looks at the live board: a
    side that is not in check gets every pseudo-legal destination, a side
    that is in check gets none. *)
Lemma getValidMoves_all_or_nothing g pos piece :
  Board_getPiece (board g) pos = Some piece ->
  (isCheck g (getColor piece) = Some false ->
   GameState_getValidMoves g pos = Some (Piece_getValidMoves piece (board g))) /\
  (isCheck g (getColor piece) = Some true ->
   GameState_getValidMoves g pos = Some []).
Proof.
  intros Hp. unfold GameState_getValidMoves. rewrite Hp. split; intros H.
  - rewrite (try_move_not_in_check g _ pos _ [] H). reflexivity.
  - apply (try_move_in_check g _ pos _ [] H).
Qed.

(** C2 (the code diverges): after the fool's mate [f2f4 e7e6 g2g4 d8h4]
    the queen on h4 still generates her moves from d8, her [position]
    member, so White is reported neither in check nor checkmated; and in
    the position [check_by_pawn], where the king can simply step to c3,
    White is reported checkmated. *)
Theorem isCheckmate_fools_mate_and_escapable_check :
  (after start fools_mate (position_member_at "h4") = Some (Some (sq "d8")) /\
   after start fools_mate (fun g => isCheck g WHITE) = Some (Some false) /\
   after start fools_mate (fun g => isCheckmate g WHITE) = Some (Some false) /\
   after start fools_mate (fun g => isCheckmate g BLACK) = Some (Some false)) /\
  (isCheckmate check_by_pawn WHITE = Some true /\
   is_legal_move check_by_pawn WHITE (sq "d3") (sq "c3") = true /\
   ~ checkmate_by_the_rules check_by_pawn WHITE).
Proof.
  split; [repeat split; run|].
  split; [run|]. split; [run|].
  intros [_ H]. vm_compute in H. discriminate H.
Qed.

(** C3 (the code diverges): after [pinned_pawn] White's king is not
    attacked and [getValidMoves] for d2 returns d3 and d4, and with the pawn
    on either square the bishop on b4 attacks the king. After the fool's
    mate it returns a3 and a4 for a2, and after either move the queen on h4
    still attacks the king. Check is judged on the squares the pieces stand
    on. *)
Theorem getValidMoves_lists_move_into_check :
  (after start pinned_pawn (fun g => isCheck (in_place g) WHITE) = Some (Some false) /\
   after start pinned_pawn (fun g => GameState_getValidMoves g (sq "d2"))
     = Some (Some [sq "d3"; sq "d4"]) /\
   after start pinned_pawn (fun g => isCheck (in_place (trial g (sq "d2") (sq "d3"))) WHITE)
     = Some (Some true) /\
   after start pinned_pawn (fun g => isCheck (in_place (trial g (sq "d2") (sq "d4"))) WHITE)
     = Some (Some true)) /\
  (after start fools_mate (fun g => GameState_getValidMoves g (sq "a2"))
     = Some (Some [sq "a3"; sq "a4"]) /\
   after start fools_mate (fun g => isCheck (in_place (trial g (sq "a2") (sq "a3"))) WHITE)
     = Some (Some true) /\
   after start fools_mate (fun g => isCheck (in_place (trial g (sq "a2") (sq "a4"))) WHITE)
     = Some (Some true)).
Proof.
  repeat split; run.
Qed.

(** C4 (the code diverges): the 46 calls of [stalemate_game] are all
    accepted and leave White to move. On the squares the pieces stand on
    White is not in check and has no legal move: the king's free squares d1
    and e2 are covered by the bishop on g4, the pawns on d2 and f2 and the
    bishop on f1 are pinned against the king by the bishop on b4, the queen
    on h4 and the rook on h1, and the pawns on c4 and e4 are blocked. Yet
    [isStalemate] answers [false]: the pawn on c4 still generates the step
    to c3 from c2, its [position] member. *)
Theorem isStalemate_counts_pseudo_legal_moves :
  length <$> play start stalemate_game = Some 46%nat /\
  getFEN stalemate_position
    = "4k3/1p3pp1/2np3n/2p1p3/rbP1P1bq/8/3P1P2/4KB1r w KQkq a8 0 24"%string /\
  currentPlayer stalemate_position = WHITE /\
  stalemate_by_the_rules (in_place stalemate_position) WHITE /\
  position_member_at "c4" stalemate_position = Some (sq "c2") /\
  GameState_getValidMoves stalemate_position (sq "c4") = Some [sq "c3"] /\
  isStalemate stalemate_position WHITE = Some false.
Proof.
  split; [run|]. split; [run|]. split; [run|].
  split; [split; run|]. repeat split; run.
Qed.

(** ** Undo *)

(** [undoMove] writes neither clock nor the repetition counts. *)
Lemma undoMove_keeps_counters g g' :
  undoMove g = Some (Restored g') ->
  halfMoveClock g' = halfMoveClock g /\
  fullMoveNumber g' = fullMoveNumber g /\
  positionHistory g' = positionHistory g.
Proof.
  unfold undoMove. destruct (last (moveHistory g)) as [lastMove|].
  - destruct (getCapturedPiece lastMove) as [captured|].
    + destruct (rewrap _ _ _) as [[g1 slot]|]; simpl; [|discriminate].
      destruct (Board_deref _ _); simpl; discriminate.
    + simpl. destruct (Board_deref _ _); simpl; [|discriminate].
      intros [= <-]. auto.
  - intros [= <-]. auto.
Qed.

(** C5 (the code diverges): after [e2e4 e7e5], undoing Black's move and
    playing it again gives another FEN string, full-move number 3 instead
    of 2: [undoMove] leaves the full-move number and the repetition count
    of the undone position as they were. And undoing the second move of a
    pawn clears its [hasMoved] flag, which was set before that move. *)
Theorem undoMove_then_same_move_changes_FEN :
  (after start [Submit "e2" "e4"; Submit "e7" "e5"] getFEN
     = Some "rnbqkbnr/pppp1ppp/8/4p3/4P3/8/PPPP1PPP/RNBQKBNR w KQkq a8 0 2" /\
   after start [Submit "e2" "e4"; Submit "e7" "e5"; Undo; Submit "e7" "e5"] getFEN
     = Some "rnbqkbnr/pppp1ppp/8/4p3/4P3/8/PPPP1PPP/RNBQKBNR w KQkq a8 0 3" /\
   after start [Submit "e2" "e4"] fullMoveNumber = Some 1 /\
   after start [Submit "e2" "e4"; Submit "e7" "e5"; Undo] fullMoveNumber = Some 2 /\
   after start [Submit "e2" "e4"; Submit "e7" "e5"] own_count = Some (Some 1) /\
   after start [Submit "e2" "e4"; Submit "e7" "e5"; Undo]
     (fun g => positionHistory g
                 !! "rnbqkbnr/pppp1ppp/8/4p3/4P3/8/PPPP1PPP/RNBQKBNR w KQkq a8 0 2")
     = Some (Some 1)) /\
  (after start [Submit "e2" "e4"; Submit "a7" "a6"] (hasMoved_at "e4") = Some (Some true) /\
   after start [Submit "e2" "e4"; Submit "a7" "a6"; Submit "e4" "e3"] (hasMoved_at "e3")
     = Some (Some true) /\
   after start [Submit "e2" "e4"; Submit "a7" "a6"; Submit "e4" "e3"; Undo] (hasMoved_at "e4")
     = Some (Some false)).
Proof.
  repeat split; run.
Qed.

(** ** Draws *)

(** The repetition test fires exactly when some FEN string, clocks
    included, has been counted three times. *)
Lemma isThreefoldRepetition_iff g :
  isThreefoldRepetition g = true <->
  exists fen n, positionHistory g !! fen = Some n /\ 3 <= n.
Proof.
  unfold isThreefoldRepetition. rewrite existsb_exists. split.
  - intros [[fen n] [Hin H]]. apply list_elem_of_In, elem_of_map_to_list in Hin.
    exists fen, n. split; [exact Hin | apply Z.leb_le, H].
  - intros (fen & n & Hin & H). exists (fen, n). split.
    + apply list_elem_of_In, elem_of_map_to_list, Hin.
    + apply Z.leb_le, H.
Qed.

(** C6 (the code diverges): in [knight_shuffle] the final position, same
    pieces, side to move, castling rights and en-passant target, stands on
    the board for the third time, yet the FEN string it is counted under
    has count 1, no key has count 3, and [isDraw] answers [false]: the key
    is the whole FEN string, clocks included. *)
Theorem isDraw_misses_threefold_repetition :
  (play start knight_shuffle ≫= last_occurrences) = Some 3%nat /\
  after start knight_shuffle own_count = Some (Some 1) /\
  after start knight_shuffle isThreefoldRepetition = Some false /\
  after start knight_shuffle isDraw = Some false.
Proof.
  repeat split; run.
Qed.

(** The half-move clock after an accepted move: zero on a capture or a
    pawn move, one more (as an [int]) otherwise. *)
Lemma halfMoveClock_after_makeMove g from to piece g' :
  Board_getPiece (board g) from = Some piece ->
  makeMove g from to = Some (true, g') ->
  halfMoveClock g' =
    if nonnull (Board_getPiece (board g) to) || PieceType_eqb (getType piece) PAWN
    then 0 else Int.incr (halfMoveClock g).
Proof.
  intros Hp. rewrite makeMove_unfold, Hp.
  destruct (negb (Color_eqb _ _)); [discriminate|].
  destruct (negb (Piece_canMoveTo _ _ _)); [discriminate|].
  unfold updateGameState, executeMove.
  cbn [getTo getFrom Move_new].
  destruct (Board_getPiece (board g) to) as [target|];
    cbn [moveHistory with_currentPlayer with_moveHistory];
    rewrite last_snoc; cbn [mbind option_bind];
    cbn [getTo Move_new setCapturedPiece getCapturedPiece getPiece nonnull ptr_of ptr_type orb];
    [|destruct (PieceType_eqb (getType piece) PAWN)];
    match goal with
    | |- context [Color_eqb (currentPlayer ?x) WHITE] =>
        destruct (Color_eqb (currentPlayer x) WHITE)
    end; intros [= <-]; reflexivity.
Qed.

Lemma isDraw_iff g :
  isDraw g = true <-> isThreefoldRepetition g = true \/ 50 <= halfMoveClock g.
Proof.
  unfold isDraw, isInsufficientMaterial.
  destruct (isThreefoldRepetition g); [tauto|].
  destruct (Z.leb_spec 50 (halfMoveClock g)); split; try tauto; try lia.
Qed.

(** C7: after an accepted move the half-move clock is zero when the move
    captured or moved a pawn and is incremented (as an [int]; by one below
    [INT_MAX]) otherwise, and [isDraw] answers [true] in every state whose
    clock stands at 100 plies, fifty full moves, or more. *)
Theorem halfMoveClock_rule_and_fifty_move_draw
    (g : GameState) (from to : Position) (piece : Piece) (g' : GameState) :
  Board_getPiece (board g) from = Some piece ->
  makeMove g from to = Some (true, g') ->
  (halfMoveClock g' =
     if nonnull (Board_getPiece (board g) to) || PieceType_eqb (getType piece) PAWN
     then 0 else Int.incr (halfMoveClock g)) /\
  (Int.int_min <= halfMoveClock g < Int.int_max ->
   nonnull (Board_getPiece (board g) to) || PieceType_eqb (getType piece) PAWN = false ->
   halfMoveClock g' = halfMoveClock g + 1) /\
  (forall h : GameState, 100 <= halfMoveClock h -> isDraw h = true).
Proof.
  intros Hp H.
  assert (halfMoveClock g' =
            if nonnull (Board_getPiece (board g) to) || PieceType_eqb (getType piece) PAWN
            then 0 else Int.incr (halfMoveClock g)) as Hclock.
  { revert H. rewrite makeMove_unfold, Hp.
    destruct (negb (Color_eqb _ _)); [discriminate|].
    destruct (negb (Piece_canMoveTo _ _ _)); [discriminate|].
    unfold updateGameState, executeMove.
    cbn [getTo getFrom Move_new].
    destruct (Board_getPiece (board g) to) as [target|];
      cbn [moveHistory with_currentPlayer with_moveHistory];
      rewrite last_snoc; cbn [mbind option_bind];
      cbn [getTo Move_new setCapturedPiece getCapturedPiece getPiece nonnull ptr_of ptr_type orb];
      [|destruct (PieceType_eqb (getType piece) PAWN)];
      match goal with
      | |- context [Color_eqb (currentPlayer ?x) WHITE] =>
          destruct (Color_eqb (currentPlayer x) WHITE)
      end; intros [= <-]; reflexivity. }
  split; [exact Hclock|]. split.
  - intros Hrange Hquiet. rewrite Hclock, Hquiet. apply incr_small, Hrange.
  - intros h Hh. apply isDraw_iff. right. lia.
Qed.

(** The hundredth ply of a game without captures and pawn moves. *)
Lemma fifty_move_draw_at_the_hundredth_ply :
  Board_getPiece (board after_ninety_nine) (sq "f6") = Some g8_knight /\
  makeMove after_ninety_nine (sq "f6") (sq "h6")
    = Some (true, state_after after_ninety_nine (sq "f6") (sq "h6")) /\
  (halfMoveClock after_ninety_nine = 99 /\
   halfMoveClock (state_after after_ninety_nine (sq "f6") (sq "h6")) = 100) /\
  isDraw (state_after after_ninety_nine (sq "f6") (sq "h6")) = true.
Proof.
  assert (Board_getPiece (board after_ninety_nine) (sq "f6") = Some g8_knight) as Hp
    by (vm_compute; reflexivity).
  assert (makeMove after_ninety_nine (sq "f6") (sq "h6")
          = Some (true, state_after after_ninety_nine (sq "f6") (sq "h6"))) as H
    by (apply makeMove_state_after; vm_compute; reflexivity).
  assert (halfMoveClock after_ninety_nine = 99 /\
          halfMoveClock (state_after after_ninety_nine (sq "f6") (sq "h6")) = 100)
    as Hclocks by (vm_compute; split; reflexivity).
  destruct (halfMoveClock_rule_and_fifty_move_draw
              after_ninety_nine (sq "f6") (sq "h6") g8_knight
              (state_after after_ninety_nine (sq "f6") (sq "h6")) Hp H)
    as (_ & _ & Hdraw).
  split; [exact Hp|]. split; [exact H|]. split; [exact Hclocks|].
  apply Hdraw. destruct Hclocks as [_ ->]. discriminate.
Defined.

(** * Further properties of the code *)

(** ** Board storage *)

Lemma eight_by_eight_rows b i :
  eight_by_eight b = true -> (i < 8)%nat ->
  exists r, squares b !! i = Some r /\ length r = 8%nat.
Proof.
  unfold eight_by_eight. rewrite andb_true_iff, Nat.eqb_eq, forallb_forall.
  intros [Hl Hr] Hi.
  destruct (lookup_lt_is_Some_2 (squares b) i) as [r Hri]; [lia|].
  exists r. split; [exact Hri|].
  apply Nat.eqb_eq, Hr, list_elem_of_In, list_elem_of_lookup. eauto.
Qed.

Lemma index_lt_8 z : 0 <= z < 8 -> (Z.to_nat z < 8)%nat.
Proof. lia. Qed.

Lemma Board_getPiece_setPiece_eq b pos x :
  eight_by_eight b = true -> isValid pos = true ->
  Board_getPiece (Board_setPiece b pos x) pos = x.
Proof.
  intros Hs Hv. unfold Board_getPiece, Board_setPiece. rewrite Hv. simpl.
  apply isValid_bounds in Hv as [Hr Hc].
  destruct (eight_by_eight_rows b _ Hs (index_lt_8 _ Hr)) as (r & Hrow & Hlen).
  rewrite list_lookup_alter_eq, Hrow. simpl.
  rewrite list_lookup_insert_eq by (rewrite Hlen; lia). reflexivity.
Qed.

Lemma Board_getPiece_setPiece_ne b pos pos' x :
  pos <> pos' ->
  Board_getPiece (Board_setPiece b pos x) pos' = Board_getPiece b pos'.
Proof.
  intros Hne. unfold Board_getPiece, Board_setPiece.
  destruct (isValid pos) eqn:Hv; simpl; [|reflexivity].
  destruct (isValid pos') eqn:Hv'; simpl; [|reflexivity].
  apply isValid_bounds in Hv as [Hr Hc]. apply isValid_bounds in Hv' as [Hr' Hc'].
  destruct (decide (Z.to_nat (getRow pos) = Z.to_nat (getRow pos'))) as [E|E].
  - rewrite E, list_lookup_alter_eq.
    destruct (squares b !! Z.to_nat (getRow pos')) as [r|]; simpl; [|reflexivity].
    rewrite list_lookup_insert_ne; [reflexivity|].
    intros E'. apply Hne. destruct pos, pos'. simpl in *. f_equal; lia.
  - rewrite list_lookup_alter_ne by exact E. reflexivity.
Qed.

Lemma eight_by_eight_setPiece b pos x :
  eight_by_eight b = true -> eight_by_eight (Board_setPiece b pos x) = true.
Proof.
  intros Hs. unfold Board_setPiece. destruct (isValid pos); simpl; [|exact Hs].
  revert Hs. unfold eight_by_eight. simpl.
  rewrite !andb_true_iff, !Nat.eqb_eq, !forallb_forall, length_alter.
  intros [Hl Hr]. split; [exact Hl|].
  intros r Hin. apply list_elem_of_In, list_elem_of_lookup in Hin as [i Hi].
  destruct (decide (Z.to_nat (getRow pos) = i)) as [<-|E].
  - rewrite list_lookup_alter_eq in Hi.
    destruct (squares b !! Z.to_nat (getRow pos)) as [r0|] eqn:E0; simpl in Hi; [|discriminate].
    injection Hi as <-. rewrite length_insert.
    apply Hr, list_elem_of_In, list_elem_of_lookup. eauto.
  - rewrite list_lookup_alter_ne in Hi by exact E.
    apply Hr, list_elem_of_In, list_elem_of_lookup. eauto.
Qed.

Lemma eight_by_eight_movePiece b from to :
  eight_by_eight b = true -> eight_by_eight (Board_movePiece b from to) = true.
Proof.
  intros Hs. unfold Board_movePiece.
  destruct (negb (isValid from) || negb (isValid to)); [exact Hs|].
  apply eight_by_eight_setPiece, eight_by_eight_setPiece, Hs.
Qed.

Lemma eight_by_eight_update b a f :
  eight_by_eight b = true -> eight_by_eight (Board_update b a f) = true.
Proof.
  unfold eight_by_eight, Board_update. simpl.
  rewrite !andb_true_iff, !Nat.eqb_eq, !forallb_forall, length_map.
  intros [Hl Hr]. split; [exact Hl|].
  intros r Hin. apply in_map_iff in Hin as (r0 & <- & Hin).
  rewrite length_map. apply Hr, Hin.
Qed.

Lemma Board_getPiece_movePiece b from to pos :
  eight_by_eight b = true -> isValid from = true -> isValid to = true ->
  Board_getPiece (Board_movePiece b from to) pos =
    if decide (pos = to) then Board_getPiece b from
    else if decide (pos = from) then None
    else Board_getPiece b pos.
Proof.
  intros Hs Hf Ht. unfold Board_movePiece. rewrite Hf, Ht. simpl.
  destruct (decide (pos = to)) as [->|Hto].
  - apply Board_getPiece_setPiece_eq; [apply eight_by_eight_setPiece, Hs | exact Ht].
  - rewrite Board_getPiece_setPiece_ne by congruence.
    destruct (decide (pos = from)) as [->|Hfrom].
    + apply Board_getPiece_setPiece_eq; assumption.
    + apply Board_getPiece_setPiece_ne. congruence.
Qed.

Lemma Board_getPiece_update b a f pos :
  Board_getPiece (Board_update b a f) pos =
  (fun p => if Nat.eqb (addr p) a then f p else p) <$> Board_getPiece b pos.
Proof.
  unfold Board_getPiece, Board_update. destruct (isValid pos); simpl; [|reflexivity].
  rewrite list_lookup_fmap.
  destruct (squares b !! Z.to_nat (getRow pos)) as [r|]; simpl; [|reflexivity].
  rewrite list_lookup_fmap.
  destruct (r !! Z.to_nat (getCol pos)) as [[p|]|]; simpl; try reflexivity.
  destruct (Nat.eqb (addr p) a); reflexivity.
Qed.

Lemma Board_getPiece_clear b pos : Board_getPiece (Board_clear b) pos = None.
Proof.
  unfold Board_getPiece, Board_clear. destruct (isValid pos); simpl; [|reflexivity].
  rewrite list_lookup_fmap.
  destruct (squares b !! Z.to_nat (getRow pos)) as [r|]; simpl; [|reflexivity].
  rewrite list_lookup_fmap.
  destruct (r !! Z.to_nat (getCol pos)); reflexivity.
Qed.

Lemma Board_getPiece_new pos : Board_getPiece Board_new pos = None.
Proof.
  unfold Board_getPiece. destruct (isValid pos); [|reflexivity]. cbn [negb].
  change (squares Board_new) with (replicate 8 (replicate 8 (@None Piece))).
  destruct (replicate 8 (replicate 8 (@None Piece)) !! Z.to_nat (getRow pos)) as [r|] eqn:E;
    [|reflexivity].
  apply lookup_replicate in E as [-> _].
  destruct (replicate 8 (@None Piece) !! Z.to_nat (getCol pos)) as [x|] eqn:E'; [|reflexivity].
  apply lookup_replicate in E' as [-> _]. reflexivity.
Qed.

Lemma Board_ext b1 b2 :
  eight_by_eight b1 = true -> eight_by_eight b2 = true ->
  (forall pos, isValid pos = true -> Board_getPiece b1 pos = Board_getPiece b2 pos) ->
  b1 = b2.
Proof.
  intros H1 H2 H. destruct b1 as [l1], b2 as [l2]. f_equal.
  assert (length l1 = 8%nat /\ length l2 = 8%nat) as [Hl1 Hl2].
  { unfold eight_by_eight in H1, H2. simpl in *.
    apply andb_true_iff in H1 as [H1 _]. apply andb_true_iff in H2 as [H2 _].
    apply Nat.eqb_eq in H1, H2. split; assumption. }
  apply (list_eq_same_length _ _ 8); [exact Hl2 | exact Hl1 |].
  intros i r1 r2 Hi Hr1 Hr2.
  destruct (eight_by_eight_rows _ i H1 Hi) as (r1' & Hr1' & Hlen1).
  destruct (eight_by_eight_rows _ i H2 Hi) as (r2' & Hr2' & Hlen2).
  simpl in Hr1', Hr2'. rewrite Hr1 in Hr1'. rewrite Hr2 in Hr2'.
  injection Hr1' as <-. injection Hr2' as <-.
  apply (list_eq_same_length _ _ 8); [exact Hlen2 | exact Hlen1 |].
  intros j x1 x2 Hj Hx1 Hx2.
  assert (isValid (mkPosition (Z.of_nat i) (Z.of_nat j)) = true) as Hv.
  { apply isValid_bounds. simpl. lia. }
  specialize (H _ Hv). unfold Board_getPiece in H. rewrite Hv in H.
  cbn [negb getRow getCol squares] in H.
  rewrite !Nat2Z.id, Hr1, Hr2, Hx1, Hx2 in H. exact H.
Qed.


(** ** The pawn's destinations *)

(** The result of [Pawn::getValidMoves] in one piece: the forward steps,
    then the capture squares that hold an enemy. *)
Lemma Pawn_getValidMoves_parts self board :
  Pawn_getValidMoves self board =
  (if isValid (pawn_forward self) && negb (nonnull (Board_getPiece board (pawn_forward self)))
   then pawn_forward self ::
        (if negb (getHasMoved self) &&
            negb (nonnull (Board_getPiece board (pawn_doubleForward self)))
         then [pawn_doubleForward self] else [])
   else []) ++ List.filter (capturable self board) (pawn_captures self).
Proof.
  unfold Pawn_getValidMoves, pawn_captures, capturable.
  fold (pawn_direction self). fold (pawn_forward self). fold (pawn_doubleForward self).
  set (c1 := mkPosition _ (Int.sub _ 1)). set (c2 := mkPosition _ (Int.add _ 1)).
  destruct (isValid (pawn_forward self) && _);
    destruct (negb (getHasMoved self));
    destruct (negb (nonnull (Board_getPiece board (pawn_doubleForward self))));
    cbn [foldl List.filter andb];
    (destruct (isValid c1); cbn [andb];
      [destruct (Board_getPiece board c1) as [t1|];
         [destruct (negb (Color_eqb (getColor t1) (getColor self)))|]|]);
    (destruct (isValid c2); cbn [andb];
      [destruct (Board_getPiece board c2) as [t2|];
         [destruct (negb (Color_eqb (getColor t2) (getColor self)))|]|]);
    reflexivity.
Qed.

(** X4: a destination [Pawn::getValidMoves] returns never holds a piece of
    the pawn's own colour. *)
Theorem Pawn_never_lands_on_own_colour self board m target :
  In m (Pawn_getValidMoves self board) ->
  Board_getPiece board m = Some target ->
  getColor target <> getColor self.
Proof.
  rewrite Pawn_getValidMoves_parts, in_app_iff. intros [Hf|Hc] Ht.
  - destruct (isValid (pawn_forward self)); [|destruct Hf]. cbn [andb] in Hf.
    destruct (Board_getPiece board (pawn_forward self)) as [x|] eqn:Ef;
      cbn [nonnull negb] in Hf; [destruct Hf|].
    destruct Hf as [<-|Hf]; [congruence|].
    destruct (negb (getHasMoved self)); [|destruct Hf]. cbn [andb] in Hf.
    destruct (Board_getPiece board (pawn_doubleForward self)) as [x|] eqn:Ed;
      cbn [nonnull negb] in Hf; [destruct Hf|].
    destruct Hf as [<-|[]]. congruence.
  - apply filter_In in Hc as [_ Hc]. unfold capturable in Hc.
    apply andb_true_iff in Hc as [_ Hc]. rewrite Ht in Hc.
    apply negb_true_iff in Hc. intros E. rewrite E in Hc.
    unfold Color_eqb in Hc. rewrite bool_decide_eq_false in Hc. apply Hc. reflexivity.
Qed.

(** X5: every destination of a pawn is on the board, except that the double
    step of a pawn that has not moved is returned without a bounds test. *)
Theorem Pawn_destinations_on_board_but_for_the_double_step self board m :
  In m (Pawn_getValidMoves self board) ->
  isValid m = true \/ (getHasMoved self = false /\ m = pawn_doubleForward self).
Proof.
  rewrite Pawn_getValidMoves_parts, in_app_iff. intros [Hf|Hc].
  - destruct (isValid (pawn_forward self)) eqn:Ev; [|destruct Hf]. cbn [andb] in Hf.
    destruct (negb (nonnull _)); [|destruct Hf].
    destruct Hf as [<-|Hf]; [left; exact Ev|].
    destruct (getHasMoved self); cbn [negb andb] in Hf; [destruct Hf|].
    destruct (negb (nonnull _)); [|destruct Hf].
    destruct Hf as [<-|[]]. right. split; reflexivity.
  - apply filter_In in Hc as [_ Hc]. unfold capturable in Hc.
    apply andb_true_iff in Hc as [Hc _]. left. exact Hc.
Qed.

(** X6: a pawn has at most four destinations, and at most three once it
    has moved. *)
Theorem Pawn_has_at_most_four_destinations self board :
  (length (Pawn_getValidMoves self board) <= 4)%nat /\
  (getHasMoved self = true -> (length (Pawn_getValidMoves self board) <= 3)%nat).
Proof.
  rewrite Pawn_getValidMoves_parts, length_app.
  pose proof (List.filter_length_le (capturable self board) (pawn_captures self)) as Hc.
  change (length (pawn_captures self)) with 2%nat in Hc.
  set (n := length (List.filter _ _)) in *. clearbody n.
  split.
  - destruct (isValid _ && _); [|simpl; lia].
    destruct (negb _ && _); simpl; lia.
  - intros ->. destruct (isValid _ && _); simpl; lia.
Qed.

(** X7: a pawn that has not moved, with the two squares in front of it
    empty and no enemy on its capture squares, has exactly its single and
    its double step, in this order. *)
Theorem Pawn_unobstructed_first_move self board :
  getHasMoved self = false ->
  isValid (pawn_forward self) = true ->
  Board_getPiece board (pawn_forward self) = None ->
  Board_getPiece board (pawn_doubleForward self) = None ->
  List.filter (capturable self board) (pawn_captures self) = [] ->
  Pawn_getValidMoves self board = [pawn_forward self; pawn_doubleForward self].
Proof.
  intros Hm Hv Hf Hd Hc. rewrite Pawn_getValidMoves_parts, Hm, Hv, Hf, Hd, Hc. reflexivity.
Qed.


(** ** The state after an accepted move *)

Lemma makeMove_success_inv g from to g' :
  makeMove g from to = Some (true, g') ->
  exists piece,
    Board_getPiece (board g) from = Some piece /\
    getColor piece = currentPlayer g /\
    Piece_canMoveTo piece to (board g) = true /\
    updateGameState (executeMove g (Move_new from to (ptr_of piece))) = Some g'.
Proof.
  rewrite makeMove_unfold.
  destruct (Board_getPiece (board g) from) as [piece|]; [|discriminate].
  destruct (Color_eqb (getColor piece) (currentPlayer g)) eqn:Hc; [|discriminate].
  destruct (Piece_canMoveTo piece to (board g)) eqn:Hm; [|discriminate].
  cbn [negb].
  destruct (updateGameState _) as [g1|] eqn:Hu; [|discriminate].
  intros [= <-]. exists piece. apply Color_eqb_eq in Hc. auto.
Qed.

(** Every member of the state after an accepted move. *)
Lemma makeMove_success_fields g from to piece g' :
  Board_getPiece (board g) from = Some piece ->
  makeMove g from to = Some (true, g') ->
  board g' = Board_update (Board_movePiece (board g) from to) (addr piece) (setHasMoved true) /\
  currentPlayer g' = opponent (currentPlayer g) /\
  moveHistory g' = moveHistory g ++ [recorded_move g from to piece] /\
  (whiteKingMoved g' = whiteKingMoved g /\ blackKingMoved g' = blackKingMoved g /\
   whiteRookMoved g' = whiteRookMoved g /\ blackRookMoved g' = blackRookMoved g /\
   enPassantTarget g' = enPassantTarget g) /\
  fullMoveNumber g' =
    (if Color_eqb (currentPlayer g) BLACK then Int.incr (fullMoveNumber g)
     else fullMoveNumber g) /\
  positionHistory g' = count_position (positionHistory g) (getFEN g').
Proof.
  intros Hp H. apply makeMove_success_inv in H as (piece' & Hp' & _ & _ & H).
  rewrite Hp in Hp'. injection Hp' as <-.
  revert H. unfold updateGameState, executeMove, recorded_move.
  cbn [getTo getFrom Move_new].
  destruct (Board_getPiece (board g) to) as [target|];
    cbn [moveHistory with_currentPlayer with_moveHistory];
    rewrite last_snoc; cbn [mbind option_bind];
    cbn [getTo Move_new setCapturedPiece getCapturedPiece getPiece nonnull ptr_of ptr_type orb];
    [|destruct (PieceType_eqb (getType piece) PAWN)];
    destruct (currentPlayer g) eqn:Hcp;
    intros [= <-]; cbn; rewrite ?Hcp; repeat split; reflexivity.
Qed.


(** ** Ownership of the pieces *)

Lemma in_all_squares pos : isValid pos = true -> In pos all_squares.
Proof.
  intros Hv. apply isValid_bounds in Hv as [Hr Hc].
  apply list_elem_of_In. unfold all_squares.
  apply list_elem_of_bind. exists (getRow pos). split.
  - apply list_elem_of_bind. exists (getCol pos). split.
    + destruct pos. simpl. apply list_elem_of_singleton. reflexivity.
    + apply elem_of_seqZ. lia.
  - apply elem_of_seqZ. lia.
Qed.

Lemma Board_getPiece_valid b pos p : Board_getPiece b pos = Some p -> isValid pos = true.
Proof.
  unfold Board_getPiece. destruct (isValid pos); [reflexivity | discriminate].
Qed.

Lemma distinct_addrs_spec b pos1 pos2 p1 p2 :
  distinct_addrs b = true ->
  Board_getPiece b pos1 = Some p1 -> Board_getPiece b pos2 = Some p2 ->
  addr p1 = addr p2 -> pos1 = pos2.
Proof.
  unfold distinct_addrs. rewrite forallb_forall. intros H H1 H2 Ha.
  specialize (H pos1 (in_all_squares _ (Board_getPiece_valid _ _ _ H1))).
  rewrite forallb_forall in H.
  specialize (H pos2 (in_all_squares _ (Board_getPiece_valid _ _ _ H2))).
  rewrite H1, H2 in H. apply Nat.eqb_eq in Ha. rewrite Ha in H.
  apply Position_eqb_eq, H.
Qed.

Lemma created_in_place_spec b pos p :
  created_in_place b = true -> Board_getPiece b pos = Some p -> getPosition p = pos.
Proof.
  unfold created_in_place. rewrite forallb_forall. intros H Hp.
  specialize (H pos (in_all_squares _ (Board_getPiece_valid _ _ _ Hp))).
  rewrite Hp in H. apply Position_eqb_eq, H.
Qed.

(** The objects the board owns are the occupants of its squares. *)
Lemma owned_iff_on_a_square b q :
  eight_by_eight b = true ->
  In q (omap id (concat (squares b))) <-> exists pos, Board_getPiece b pos = Some q.
Proof.
  intros Hs. rewrite <- list_elem_of_In, list_elem_of_omap. split.
  - intros (x & Hx & Hid). unfold id in Hid. subst x.
    apply list_elem_of_In, in_concat in Hx as (r & Hr & Hx).
    apply list_elem_of_In, list_elem_of_lookup in Hr as [i Hi].
    apply list_elem_of_In, list_elem_of_lookup in Hx as [j Hj].
    pose proof (lookup_lt_Some _ _ _ Hi) as Hi8.
    pose proof (lookup_lt_Some _ _ _ Hj) as Hj8.
    assert (length (squares b) = 8%nat) as Hl.
    { unfold eight_by_eight in Hs. apply andb_true_iff in Hs as [Hs _].
      apply Nat.eqb_eq, Hs. }
    rewrite Hl in Hi8.
    destruct (eight_by_eight_rows b i Hs Hi8) as (r' & Hr' & Hlen).
    rewrite Hi in Hr'. injection Hr' as <-. rewrite Hlen in Hj8.
    exists (mkPosition (Z.of_nat i) (Z.of_nat j)).
    unfold Board_getPiece.
    assert (isValid (mkPosition (Z.of_nat i) (Z.of_nat j)) = true) as ->.
    { apply isValid_bounds. simpl. lia. }
    cbn [negb getRow getCol]. rewrite !Nat2Z.id, Hi, Hj. reflexivity.
  - intros [pos Hp]. exists (Some q). split; [|reflexivity].
    unfold Board_getPiece in Hp. destruct (isValid pos); [|discriminate].
    cbn [negb] in Hp.
    destruct (squares b !! Z.to_nat (getRow pos)) as [r|] eqn:Hr; [|discriminate].
    destruct (r !! Z.to_nat (getCol pos)) as [x|] eqn:Hx; [|discriminate].
    simpl in Hp. subst x.
    apply list_elem_of_In, in_concat. exists r. split.
    + apply list_elem_of_In, list_elem_of_lookup. eauto.
    + apply list_elem_of_In, list_elem_of_lookup. eauto.
Qed.

(** A pointer to an object that exactly one slot owns reads that object. *)
Lemma Board_deref_the_object b a p :
  eight_by_eight b = true ->
  (exists pos, Board_getPiece b pos = Some p) -> addr p = a ->
  (forall pos q, Board_getPiece b pos = Some q -> addr q = a -> q = p) ->
  Board_deref b a = Some p.
Proof.
  intros Hs Hex Ha Huniq. unfold Board_deref.
  destruct (list_find _ _) as [[i q]|] eqn:E; simpl.
  - apply list_find_Some in E as (Hi & Hq & _).
    assert (In q (omap id (concat (squares b)))) as Hin.
    { apply list_elem_of_In, list_elem_of_lookup. eauto. }
    apply (owned_iff_on_a_square b q Hs) in Hin as [pos Hpos].
    f_equal. eapply Huniq; eassumption.
  - apply list_find_None in E. rewrite Forall_forall in E.
    apply (owned_iff_on_a_square b p Hs) in Hex.
    apply list_elem_of_In in Hex. elim (E p Hex). exact Ha.
Qed.


(** ** Pieces on their squares *)

(** On the board of [in_place] each square holds the piece it held, with
    the [position] member set to that square. *)
Lemma Board_getPiece_in_place b pos :
  Board_getPiece (in_place_board b) pos = setPosition pos <$> Board_getPiece b pos.
Proof.
  unfold Board_getPiece, in_place_board.
  destruct (isValid pos) eqn:Hv; cbn [negb squares]; [|reflexivity].
  apply isValid_bounds in Hv as [Hr Hc].
  rewrite list_lookup_imap.
  destruct (squares b !! Z.to_nat (getRow pos)) as [r|]; simpl; [|reflexivity].
  rewrite list_lookup_imap.
  destruct (r !! Z.to_nat (getCol pos)) as [slot|]; simpl; [|reflexivity].
  rewrite !Z2Nat.id by lia. destruct pos. reflexivity.
Qed.

Lemma eight_by_eight_in_place b :
  eight_by_eight b = true -> eight_by_eight (in_place_board b) = true.
Proof.
  unfold eight_by_eight, in_place_board. simpl.
  rewrite !andb_true_iff, !Nat.eqb_eq, !forallb_forall, length_imap.
  intros [Hl Hr]. split; [exact Hl|].
  intros r Hin. apply list_elem_of_In, list_elem_of_lookup in Hin as [i Hi].
  rewrite list_lookup_imap in Hi.
  destruct (squares b !! i) as [r0|] eqn:E; simpl in Hi; [|discriminate].
  injection Hi as <-. rewrite length_imap.
  apply Hr, list_elem_of_In, list_elem_of_lookup. eauto.
Qed.

(** On it every piece stands on the square its member names. *)
Lemma created_in_place_in_place b : created_in_place (in_place_board b) = true.
Proof.
  unfold created_in_place. apply forallb_forall. intros pos _.
  rewrite Board_getPiece_in_place.
  destruct (Board_getPiece b pos) as [p|]; [|reflexivity].
  simpl. apply Position_eqb_refl.
Qed.

(** Where every piece stands on the square its member names, as in a new
    game, [in_place] changes nothing: check on the squares the pieces stand
    on is then the check [isCheck] computes. *)
Lemma in_place_created_in_place g :
  eight_by_eight (board g) = true -> created_in_place (board g) = true ->
  in_place g = g.
Proof.
  intros Hs Hc. unfold in_place.
  assert (in_place_board (board g) = board g) as ->.
  { apply Board_ext; [apply eight_by_eight_in_place, Hs | exact Hs |].
    intros pos _. rewrite Board_getPiece_in_place.
    destruct (Board_getPiece (board g) pos) as [p|] eqn:Hp; [|reflexivity].
    simpl. f_equal. pose proof (created_in_place_spec _ _ _ Hc Hp) as <-.
    destruct p. reflexivity. }
  destruct g. reflexivity.
Qed.


(** ** Moves and their undoing on the board *)

Lemma setHasMoved_addr m p : addr (setHasMoved m p) = addr p.
Proof. reflexivity. Qed.

Lemma setHasMoved_back p :
  getHasMoved p = false -> setHasMoved false (setHasMoved true p) = p.
Proof. destruct p. simpl. intros ->. reflexivity. Qed.

(** X12: on an 8x8 grid with distinct objects, after an accepted move to a
    valid square the mover stands on [to] with [hasMoved] set, [from] is
    empty, and every other square holds what it held. *)
Theorem makeMove_moves_only_the_mover g from to piece g' :
  eight_by_eight (board g) = true ->
  distinct_addrs (board g) = true ->
  Board_getPiece (board g) from = Some piece ->
  isValid to = true ->
  makeMove g from to = Some (true, g') ->
  forall pos,
    Board_getPiece (board g') pos =
      if decide (pos = to) then Some (setHasMoved true piece)
      else if decide (pos = from) then None
      else Board_getPiece (board g) pos.
Proof.
  intros Hs Hd Hp Hto H pos.
  destruct (makeMove_success_fields g from to piece g' Hp H) as (-> & _).
  rewrite Board_getPiece_update,
    (Board_getPiece_movePiece _ _ _ _ Hs (Board_getPiece_valid _ _ _ Hp) Hto).
  destruct (decide (pos = to)) as [->|Hnt].
  - rewrite Hp. simpl. rewrite Nat.eqb_refl. reflexivity.
  - destruct (decide (pos = from)) as [->|Hnf]; [reflexivity|].
    destruct (Board_getPiece (board g) pos) as [q|] eqn:Hq; [|reflexivity]. simpl.
    destruct (Nat.eqb_spec (addr q) (addr piece)) as [E|E]; [|reflexivity].
    elim Hnf. exact (distinct_addrs_spec _ _ _ _ _ Hd Hq Hp E).
Qed.

(** No slot owns an object at an address that no occupant has. *)
Lemma Board_deref_no_owner b a :
  eight_by_eight b = true ->
  (forall pos q, Board_getPiece b pos = Some q -> addr q <> a) ->
  Board_deref b a = None.
Proof.
  intros Hs H. unfold Board_deref.
  destruct (list_find _ _) as [[i q]|] eqn:E; [|reflexivity].
  apply list_find_Some in E as (Hi & Hq & _).
  assert (In q (omap id (concat (squares b)))) as Hin.
  { apply list_elem_of_In, list_elem_of_lookup. eauto. }
  apply (owned_iff_on_a_square b q Hs) in Hin as [pos Hpos].
  elim (H pos q Hpos Hq).
Qed.

(** X15: on an 8x8 grid with distinct objects, [undoMove] after an
    accepted capture returns with the mover back on [from], its [hasMoved]
    flag cleared, and with the other squares, the side to move and the
    history as they were before the move; but the slot [to] is left holding
    the recorded pointer to the captured piece, an object that no slot owns
    any more since [movePiece] destroyed it. *)
Theorem undoMove_after_capture_keeps_destroyed_piece g from to piece target g1 :
  eight_by_eight (board g) = true ->
  distinct_addrs (board g) = true ->
  Board_getPiece (board g) from = Some piece ->
  Board_getPiece (board g) to = Some target ->
  from <> to ->
  makeMove g from to = Some (true, g1) ->
  exists g2,
    undoMove g1 = Some (Stale g2 to (ptr_of target)) /\
    Board_deref (board g2) (addr target) = None /\
    (forall pos,
       Board_getPiece (board g2) pos =
         if decide (pos = to) then None
         else if decide (pos = from) then Some (setHasMoved false piece)
         else Board_getPiece (board g) pos) /\
    currentPlayer g2 = currentPlayer g /\
    moveHistory g2 = moveHistory g.
Proof.
  intros Hs Hd Hp Ht Hft H.
  destruct (makeMove_success_fields g from to piece g1 Hp H) as (Hb & Hc & Hh & _).
  pose proof (Board_getPiece_valid _ _ _ Hp) as Hvf.
  pose proof (Board_getPiece_valid _ _ _ Ht) as Hvt.
  assert (addr piece <> addr target) as Hpt.
  { intros E. apply Hft. exact (distinct_addrs_spec _ _ _ _ _ Hd Hp Ht E). }
  set (b := board g) in *.
  set (b3 := Board_setPiece (Board_movePiece (board g1) to from) to None).
  assert (eight_by_eight (board g1) = true) as Hs1.
  { rewrite Hb. apply eight_by_eight_update, eight_by_eight_movePiece, Hs. }
  assert (eight_by_eight b3 = true) as Hs3
    by apply eight_by_eight_setPiece, eight_by_eight_movePiece, Hs1.
  (* the occupants once the mover is back and the slot has been rewrapped *)
  assert (forall pos,
            Board_getPiece b3 pos =
              if decide (pos = to) then None
              else if decide (pos = from) then Some (setHasMoved true piece)
              else Board_getPiece b pos) as Hb3.
  { intros pos. unfold b3. destruct (decide (pos = to)) as [->|Hnt].
    - apply Board_getPiece_setPiece_eq; [apply eight_by_eight_movePiece, Hs1 | exact Hvt].
    - rewrite Board_getPiece_setPiece_ne by congruence.
      rewrite (Board_getPiece_movePiece _ _ _ _ Hs1 Hvt Hvf), Hb,
        !Board_getPiece_update, !(Board_getPiece_movePiece _ _ _ _ Hs Hvf Hvt).
      destruct (decide (pos = from)) as [->|Hnf].
      + rewrite decide_True by reflexivity. rewrite Hp. simpl.
        rewrite Nat.eqb_refl. reflexivity.
      + repeat (rewrite decide_False by assumption).
        destruct (Board_getPiece b pos) as [q|] eqn:Hq; [|reflexivity]. simpl.
        destruct (Nat.eqb_spec (addr q) (addr piece)) as [E|E]; [|reflexivity].
        elim Hnf. exact (distinct_addrs_spec _ _ _ _ _ Hd Hq Hp E). }
  assert (Board_deref b3 (addr piece) = Some (setHasMoved true piece)) as Hderef.
  { apply Board_deref_the_object; [exact Hs3 | | reflexivity |].
    - exists from. rewrite Hb3, decide_False, decide_True by congruence. reflexivity.
    - intros pos q Hq Ha. rewrite Hb3 in Hq.
      destruct (decide (pos = to)) as [->|Hnt]; [discriminate|].
      destruct (decide (pos = from)) as [->|Hnf]; [congruence|].
      elim Hnf. exact (distinct_addrs_spec _ _ _ _ _ Hd Hq Hp Ha). }
  unfold undoMove. rewrite Hh, last_snoc. unfold recorded_move. fold b. rewrite Ht.
  cbn [getCapturedPiece setCapturedPiece Move_new getTo getFrom getPiece ptr_of ptr_addr
       board with_board with_moveHistory].
  unfold rewrap. rewrite Hvt.
  cbn [mbind option_bind board with_board with_moveHistory].
  fold b3.
  change (ptr_addr {| ptr_addr := addr piece; ptr_type := getType piece |}) with (addr piece).
  rewrite Hderef. cbn [mbind option_bind].
  eexists. split; [reflexivity|].
  cbn [board currentPlayer moveHistory with_board with_currentPlayer with_moveHistory
       getHasMoved setHasMoved negb].
  assert (forall pos,
            Board_getPiece (Board_update b3 (addr piece) (setHasMoved false)) pos =
              if decide (pos = to) then None
              else if decide (pos = from) then Some (setHasMoved false piece)
              else Board_getPiece b pos) as Hb4.
  { intros pos. rewrite Board_getPiece_update, Hb3.
    destruct (decide (pos = to)) as [->|Hnt]; [reflexivity|].
    destruct (decide (pos = from)) as [->|Hnf].
    - simpl. rewrite Nat.eqb_refl. reflexivity.
    - destruct (Board_getPiece b pos) as [q|] eqn:Hq; [|reflexivity]. simpl.
      destruct (Nat.eqb_spec (addr q) (addr piece)) as [E|E]; [|reflexivity].
      elim Hnf. exact (distinct_addrs_spec _ _ _ _ _ Hd Hq Hp E). }
  split; [|split; [exact Hb4|split]].
  - apply Board_deref_no_owner; [apply eight_by_eight_update, Hs3|].
    intros pos q. rewrite Hb4.
    destruct (decide (pos = to)) as [->|Hnt]; [discriminate|].
    destruct (decide (pos = from)) as [->|Hnf].
    + intros [= <-]. exact Hpt.
    + intros Hq E. elim Hnt. exact (distinct_addrs_spec _ _ _ _ _ Hd Hq Ht E).
  - rewrite Hc. destruct (currentPlayer g); reflexivity.
  - apply removelast_last.
Qed.

(** X14: after an accepted first move of a piece onto an empty square,
    [undoMove] succeeds and restores the board, the side to move and the
    history. *)
Theorem undoMove_restores_quiet_first_move g from to piece g1 :
  eight_by_eight (board g) = true ->
  distinct_addrs (board g) = true ->
  Board_getPiece (board g) from = Some piece ->
  getHasMoved piece = false ->
  Board_getPiece (board g) to = None ->
  makeMove g from to = Some (true, g1) ->
  exists g2,
    undoMove g1 = Some (Restored g2) /\
    board g2 = board g /\
    currentPlayer g2 = currentPlayer g /\
    moveHistory g2 = moveHistory g.
Proof.
  intros Hs Hd Hp Hm Ht H.
  destruct (makeMove_success_fields g from to piece g1 Hp H) as (Hb & Hc & Hh & _).
  pose proof (Board_getPiece_valid _ _ _ Hp) as Hvf.
  assert (from <> to) as Hft by (intros ->; congruence).
  set (b := board g) in *.
  set (b2 := Board_movePiece (board g1) to from).
  assert (eight_by_eight (board g1) = true) as Hs1.
  { rewrite Hb. apply eight_by_eight_update, eight_by_eight_movePiece, Hs. }
  assert (eight_by_eight b2 = true) as Hs2 by apply eight_by_eight_movePiece, Hs1.
  (* the occupants of the board once the piece is back *)
  assert (forall pos,
            Board_getPiece b2 pos =
              if decide (pos = from) then Some (setHasMoved true piece)
              else Board_getPiece b pos) as Hb2.
  { intros pos. unfold b2. destruct (isValid to) eqn:Hvt.
    - rewrite (Board_getPiece_movePiece _ _ _ _ Hs1 Hvt Hvf), Hb,
        !Board_getPiece_update,
        !(Board_getPiece_movePiece _ _ _ _ Hs Hvf Hvt).
      destruct (decide (pos = from)) as [->|Hnf].
      + rewrite decide_True by reflexivity. rewrite Hp. simpl.
        rewrite Nat.eqb_refl. reflexivity.
      + destruct (decide (pos = to)) as [->|Hnt]; [symmetry; exact Ht|].
        destruct (Board_getPiece b pos) as [q|] eqn:Hq; [|reflexivity]. simpl.
        destruct (Nat.eqb_spec (addr q) (addr piece)) as [E|E]; [|reflexivity].
        elim Hnf. exact (distinct_addrs_spec _ _ _ _ _ Hd Hq Hp E).
    - assert (forall x, Board_movePiece x to from = x) as ->.
      { intros x. unfold Board_movePiece. rewrite Hvt. reflexivity. }
      assert (Board_movePiece b from to = b) as Hsame.
      { unfold Board_movePiece. rewrite Hvt, Hvf. reflexivity. }
      rewrite Hb, Hsame, Board_getPiece_update.
      destruct (decide (pos = from)) as [->|Hnf].
      + rewrite Hp. simpl. rewrite Nat.eqb_refl. reflexivity.
      + destruct (Board_getPiece b pos) as [q|] eqn:Hq; [|reflexivity]. simpl.
        destruct (Nat.eqb_spec (addr q) (addr piece)) as [E|E]; [|reflexivity].
        elim Hnf. exact (distinct_addrs_spec _ _ _ _ _ Hd Hq Hp E). }
  assert (Board_deref b2 (addr piece) = Some (setHasMoved true piece)) as Hderef.
  { apply Board_deref_the_object; [exact Hs2 | | reflexivity |].
    - exists from. rewrite Hb2, decide_True by reflexivity. reflexivity.
    - intros pos q Hq Ha. rewrite Hb2 in Hq.
      destruct (decide (pos = from)) as [->|Hnf]; [congruence|].
      elim Hnf. exact (distinct_addrs_spec _ _ _ _ _ Hd Hq Hp Ha). }
  unfold undoMove. rewrite Hh, last_snoc. unfold recorded_move. fold b. rewrite Ht.
  cbn [getCapturedPiece Move_new getTo getFrom getPiece ptr_of ptr_addr
       mbind option_bind board with_board with_moveHistory].
  fold b2. rewrite Hderef. cbn [mbind option_bind].
  eexists. split; [reflexivity|].
  cbn [board currentPlayer moveHistory with_board with_currentPlayer with_moveHistory
       getHasMoved setHasMoved negb].
  split; [|split].
  - apply Board_ext; [apply eight_by_eight_update, Hs2 | exact Hs |].
    intros pos _. rewrite Board_getPiece_update, Hb2.
    destruct (decide (pos = from)) as [->|Hnf].
    + simpl. rewrite Nat.eqb_refl. rewrite Hp. f_equal.
      apply (setHasMoved_back piece Hm).
    + destruct (Board_getPiece b pos) as [q|] eqn:Hq; [|reflexivity]. simpl.
      destruct (Nat.eqb_spec (addr q) (addr piece)) as [E|E]; [|reflexivity].
      elim Hnf. exact (distinct_addrs_spec _ _ _ _ _ Hd Hq Hp E).
  - rewrite Hc. destruct (currentPlayer g); reflexivity.
  - apply removelast_last.
Qed.

Lemma makeMove_rejected_same g from to g' :
  makeMove g from to = Some (false, g') -> g' = g.
Proof.
  rewrite makeMove_unfold.
  destruct (Board_getPiece (board g) from) as [piece|]; [|congruence].
  destruct (negb (Color_eqb _ _)); [congruence|].
  destruct (negb (Piece_canMoveTo _ _ _)); [congruence|].
  destruct (updateGameState _); discriminate.
Qed.

(** Every member of the state after [undoMove] has taken a move back. *)
Lemma undoMove_fields g g' :
  undoMove g = Some (Restored g') ->
  (moveHistory g = [] /\ g' = g) \/
  exists lastMove mover,
    last (moveHistory g) = Some lastMove /\
    getCapturedPiece lastMove = None /\
    Board_deref (Board_movePiece (board g) (getTo lastMove) (getFrom lastMove))
                (ptr_addr (getPiece lastMove)) = Some mover /\
    board g' = Board_update
                 (Board_movePiece (board g) (getTo lastMove) (getFrom lastMove))
                 (ptr_addr (getPiece lastMove))
                 (setHasMoved (negb (getHasMoved mover))) /\
    currentPlayer g' = opponent (currentPlayer g) /\
    moveHistory g' = removelast (moveHistory g) /\
    (whiteKingMoved g' = whiteKingMoved g /\ blackKingMoved g' = blackKingMoved g /\
     whiteRookMoved g' = whiteRookMoved g /\ blackRookMoved g' = blackRookMoved g /\
     enPassantTarget g' = enPassantTarget g) /\
    (halfMoveClock g' = halfMoveClock g /\ fullMoveNumber g' = fullMoveNumber g /\
     positionHistory g' = positionHistory g).
Proof.
  unfold undoMove. destruct (last (moveHistory g)) as [lastMove|] eqn:Hl.
  - destruct (getCapturedPiece lastMove) as [captured|] eqn:Hc.
    { destruct (rewrap _ _ _) as [[g1 slot]|]; simpl; [|discriminate].
      destruct (Board_deref _ _); simpl; discriminate. }
    cbn [mbind option_bind board with_board with_moveHistory].
    destruct (Board_deref _ _) as [mover|] eqn:Hd; [|discriminate].
    cbn [mbind option_bind]. intros [= <-]. right. exists lastMove, mover.
    split; [reflexivity|]. split; [exact Hc|]. split; [exact Hd|].
    cbn. destruct (currentPlayer g); repeat split; reflexivity.
  - intros [= <-]. left. split; [|reflexivity].
    destruct (moveHistory g) as [|m l] using rev_ind; [reflexivity|].
    rewrite last_snoc in Hl. discriminate.
Qed.

Lemma distinct_addrs_intro b :
  (forall pos1 pos2 p1 p2,
     Board_getPiece b pos1 = Some p1 -> Board_getPiece b pos2 = Some p2 ->
     addr p1 = addr p2 -> pos1 = pos2) ->
  distinct_addrs b = true.
Proof.
  intros H. unfold distinct_addrs. apply forallb_forall. intros pos1 _.
  apply forallb_forall. intros pos2 _.
  destruct (Board_getPiece b pos1) as [p1|] eqn:H1; [|reflexivity].
  destruct (Board_getPiece b pos2) as [p2|] eqn:H2; [|reflexivity].
  destruct (Nat.eqb_spec (addr p1) (addr p2)) as [E|E]; [|reflexivity].
  simpl. apply Position_eqb_eq. exact (H _ _ _ _ H1 H2 E).
Qed.

Lemma distinct_addrs_movePiece b from to :
  eight_by_eight b = true -> distinct_addrs b = true ->
  distinct_addrs (Board_movePiece b from to) = true.
Proof.
  intros Hs Hd.
  destruct (isValid from) eqn:Hvf; [destruct (isValid to) eqn:Hvt|];
    try (unfold Board_movePiece; rewrite ?Hvf, ?Hvt; cbn [negb orb]; exact Hd).
  apply distinct_addrs_intro. intros pos1 pos2 p1 p2.
  rewrite !(Board_getPiece_movePiece _ _ _ _ Hs Hvf Hvt).
  destruct (decide (pos1 = to)) as [->|H1]; destruct (decide (pos2 = to)) as [->|H2];
    try reflexivity.
  - destruct (decide (pos2 = from)) as [->|H2f]; [discriminate|].
    intros Ha Hb E. elim H2f. symmetry. exact (distinct_addrs_spec _ _ _ _ _ Hd Ha Hb E).
  - destruct (decide (pos1 = from)) as [->|H1f]; [discriminate|].
    intros Ha Hb E. elim H1f. exact (distinct_addrs_spec _ _ _ _ _ Hd Ha Hb E).
  - destruct (decide (pos1 = from)) as [->|H1f]; [discriminate|].
    destruct (decide (pos2 = from)) as [->|H2f]; [discriminate|].
    apply (distinct_addrs_spec _ _ _ _ _ Hd).
Qed.

Lemma distinct_addrs_update b a m :
  distinct_addrs b = true -> distinct_addrs (Board_update b a (setHasMoved m)) = true.
Proof.
  intros Hd. apply distinct_addrs_intro. intros pos1 pos2 p1 p2.
  rewrite !Board_getPiece_update.
  destruct (Board_getPiece b pos1) as [q1|] eqn:H1; [|discriminate].
  destruct (Board_getPiece b pos2) as [q2|] eqn:H2; [|discriminate].
  simpl. intros [= <-] [= <-] E.
  apply (distinct_addrs_spec _ _ _ _ _ Hd H1 H2).
  destruct (Nat.eqb (addr q1) a), (Nat.eqb (addr q2) a); exact E.
Qed.

(** What [movePiece] and a write through a pointer leave on the board are
    objects that were there before. *)
Lemma Board_getPiece_setPiece_Some b pos x pos' q :
  Board_getPiece (Board_setPiece b pos x) pos' = Some q ->
  x = Some q \/ Board_getPiece b pos' = Some q.
Proof.
  destruct (decide (pos = pos')) as [<-|Hne].
  - unfold Board_getPiece, Board_setPiece.
    destruct (isValid pos) eqn:Hv; cbn [negb]; [|discriminate].
    cbn [squares]. rewrite list_lookup_alter_eq.
    destruct (squares b !! Z.to_nat (getRow pos)) as [r|]; simpl; [|discriminate].
    destruct (<[Z.to_nat (getCol pos):=x]> r !! Z.to_nat (getCol pos)) as [y|] eqn:E;
      simpl; [|discriminate].
    apply list_lookup_insert_Some in E as [(_ & -> & _)|(Hn & _)]; [|congruence].
    intros ->. left. reflexivity.
  - rewrite Board_getPiece_setPiece_ne by exact Hne. auto.
Qed.

Lemma Board_getPiece_movePiece_Some b from to pos q :
  Board_getPiece (Board_movePiece b from to) pos = Some q ->
  exists pos0, Board_getPiece b pos0 = Some q.
Proof.
  unfold Board_movePiece. destruct (negb (isValid from) || negb (isValid to)); [eauto|].
  intros H. apply Board_getPiece_setPiece_Some in H as [H|H]; [eauto|].
  apply Board_getPiece_setPiece_Some in H as [H|H]; [discriminate | eauto].
Qed.

Lemma same_object_refl p : same_object p p.
Proof. repeat split. Qed.

Lemma same_object_trans p q r : same_object p q -> same_object q r -> same_object p r.
Proof. unfold same_object. intuition congruence. Qed.

Lemma same_object_setHasMoved m p : same_object p (setHasMoved m p).
Proof. repeat split. Qed.

Lemma moved_board_same_objects b from to a m pos q :
  Board_getPiece (Board_update (Board_movePiece b from to) a (setHasMoved m)) pos = Some q ->
  exists pos0 p0, Board_getPiece b pos0 = Some p0 /\ same_object p0 q.
Proof.
  rewrite Board_getPiece_update.
  destruct (Board_getPiece (Board_movePiece b from to) pos) as [p|] eqn:Hp; [|discriminate].
  apply Board_getPiece_movePiece_Some in Hp as [pos0 Hp0].
  simpl. intros [= <-]. exists pos0, p. split; [exact Hp0|].
  destruct (Nat.eqb (addr p) a); [apply same_object_setHasMoved | apply same_object_refl].
Qed.


(** ** Invariants of play *)

(** X16: calls of [makeMove] and [undoMove] keep the grid 8x8 and the
    objects on it distinct. *)
Theorem reaches_keeps_board_well_formed g0 g :
  eight_by_eight (board g0) = true ->
  distinct_addrs (board g0) = true ->
  reaches g0 g ->
  eight_by_eight (board g) = true /\ distinct_addrs (board g) = true.
Proof.
  intros Hs0 Hd0 Hr. induction Hr as [|g from to ok g' _ [Hs Hd] H|g g' _ [Hs Hd] H].
  - split; assumption.
  - destruct ok; [|apply makeMove_rejected_same in H as ->; split; assumption].
    destruct (makeMove_success_inv _ _ _ _ H) as (piece & Hp & _).
    destruct (makeMove_success_fields _ _ _ _ _ Hp H) as (-> & _).
    split.
    + apply eight_by_eight_update, eight_by_eight_movePiece, Hs.
    + apply distinct_addrs_update, distinct_addrs_movePiece; assumption.
  - apply undoMove_fields in H as [[_ ->]|(m & mover & _ & _ & _ & -> & _)];
      [split; assumption|].
    split.
    + apply eight_by_eight_update, eight_by_eight_movePiece, Hs.
    + apply distinct_addrs_update, distinct_addrs_movePiece; assumption.
Qed.

Lemma reaches_same_objects g0 g pos q :
  reaches g0 g -> Board_getPiece (board g) pos = Some q ->
  exists pos0 p0, Board_getPiece (board g0) pos0 = Some p0 /\ same_object p0 q.
Proof.
  intros Hr. revert pos q.
  induction Hr as [|g from to ok g' _ IH H|g g' _ IH H]; intros pos q Hq.
  - exists pos, q. split; [exact Hq | apply same_object_refl].
  - destruct ok; [|apply makeMove_rejected_same in H as ->; eauto].
    destruct (makeMove_success_inv _ _ _ _ H) as (piece & Hp & _).
    destruct (makeMove_success_fields _ _ _ _ _ Hp H) as (Hb & _).
    rewrite Hb in Hq. apply moved_board_same_objects in Hq as (pos1 & p1 & Hp1 & Hsame).
    destruct (IH _ _ Hp1) as (pos0 & p0 & Hp0 & Hsame0).
    exists pos0, p0. split; [exact Hp0 | exact (same_object_trans _ _ _ Hsame0 Hsame)].
  - apply undoMove_fields in H as [[_ ->]|(m & mover & _ & _ & _ & Hb & _)]; [eauto|].
    rewrite Hb in Hq. apply moved_board_same_objects in Hq as (pos1 & p1 & Hp1 & Hsame).
    destruct (IH _ _ Hp1) as (pos0 & p0 & Hp0 & Hsame0).
    exists pos0, p0. split; [exact Hp0 | exact (same_object_trans _ _ _ Hsame0 Hsame)].
Qed.

(** X17: whatever is played, each piece on the board is one of the objects
    of the starting board with its [position] member unchanged: when the
    pieces start on the squares their members name, the member of a piece
    names the square it started on, wherever it now stands. *)
Theorem pieces_keep_their_position_member g0 g pos q :
  reaches g0 g -> Board_getPiece (board g) pos = Some q ->
  exists pos0 p0,
    Board_getPiece (board g0) pos0 = Some p0 /\ same_object p0 q /\
    (created_in_place (board g0) = true -> getPosition q = pos0).
Proof.
  intros Hr Hq. destruct (reaches_same_objects _ _ _ _ Hr Hq) as (pos0 & p0 & Hp0 & Hsame).
  exists pos0, p0. split; [exact Hp0|]. split; [exact Hsame|].
  intros Hc. destruct Hsame as (_ & _ & _ & <-).
  exact (created_in_place_spec _ _ _ Hc Hp0).
Qed.

(** X18: no call of [makeMove] or [undoMove] changes the castling flags or
    the en-passant target, so the castling field of the FEN string is the
    same throughout a game. *)
Theorem castling_rights_and_en_passant_never_change g0 g :
  reaches g0 g ->
  (whiteKingMoved g = whiteKingMoved g0 /\ blackKingMoved g = blackKingMoved g0 /\
   whiteRookMoved g = whiteRookMoved g0 /\ blackRookMoved g = blackRookMoved g0 /\
   enPassantTarget g = enPassantTarget g0) /\
  getCastlingString g = getCastlingString g0.
Proof.
  intros Hr.
  assert (whiteKingMoved g = whiteKingMoved g0 /\ blackKingMoved g = blackKingMoved g0 /\
          whiteRookMoved g = whiteRookMoved g0 /\ blackRookMoved g = blackRookMoved g0 /\
          enPassantTarget g = enPassantTarget g0) as Hflags.
  { induction Hr as [|g from to ok g' _ IH H|g g' _ IH H].
    - repeat split.
    - destruct ok; [|apply makeMove_rejected_same in H as ->; exact IH].
      destruct (makeMove_success_inv _ _ _ _ H) as (piece & Hp & _).
      destruct (makeMove_success_fields _ _ _ _ _ Hp H) as (_ & _ & _ & Hf & _).
      intuition congruence.
    - apply undoMove_fields in H as [[_ ->]|(m & mover & _ & _ & _ & _ & _ & _ & Hf & _)];
        [exact IH|].
      intuition congruence. }
  split; [exact Hflags|].
  destruct Hflags as (Hwk & Hbk & Hwr & Hbr & _).
  unfold getCastlingString. rewrite Hwk, Hbk, Hwr, Hbr. reflexivity.
Qed.

(** X19: if the side to move agrees with the parity of the history length
    at the start, it does so after any calls of [makeMove] and
    [undoMove]. *)
Theorem side_to_move_follows_history_parity g0 g :
  currentPlayer g0 = side_by_parity g0 ->
  reaches g0 g ->
  currentPlayer g = side_by_parity g.
Proof.
  intros H0 Hr. induction Hr as [|g from to ok g' _ IH H|g g' _ IH H].
  - exact H0.
  - destruct ok; [|apply makeMove_rejected_same in H as ->; exact IH].
    destruct (makeMove_success_inv _ _ _ _ H) as (piece & Hp & _).
    destruct (makeMove_success_fields _ _ _ _ _ Hp H) as (_ & Hc & Hh & _).
    unfold side_by_parity in *. rewrite Hc, Hh, IH, length_app. simpl.
    rewrite Nat.add_1_r, Nat.even_succ, <- Nat.negb_even.
    destruct (Nat.even (length (moveHistory g))); reflexivity.
  - apply undoMove_fields in H as [[_ ->]|(m & mover & Hl & _ & _ & _ & Hc & Hh & _)];
      [exact IH|].
    unfold side_by_parity in *. rewrite Hc, Hh, IH.
    destruct (moveHistory g) as [|x l _] using rev_ind; [discriminate|].
    rewrite removelast_last, length_app. simpl.
    rewrite Nat.add_1_r, Nat.even_succ, <- Nat.negb_even.
    destruct (Nat.even (length l)); reflexivity.
Qed.


(** ** Effects of makeMove and undoMove, FEN fields, draws *)

(** X8: [makeMove] accepts a move exactly when [from] holds a piece of the
    side to move and that piece can move to [to]. *)
Theorem makeMove_accepts_iff g from to :
  (exists g', makeMove g from to = Some (true, g')) <->
  exists piece,
    Board_getPiece (board g) from = Some piece /\
    getColor piece = currentPlayer g /\
    Piece_canMoveTo piece to (board g) = true.
Proof.
  split.
  - intros [g' H]. destruct (makeMove_success_inv _ _ _ _ H) as (piece & Hp & Hc & Hm & _).
    exists piece. auto.
  - intros (piece & Hp & Hc & Hm). exact (makeMove_accepts g from to piece Hp Hc Hm).
Qed.

(** X9: an accepted move passes the turn, appends one record to the
    history (source, destination, mover, and the occupant of the destination
    as captured) and increments the full-move number exactly after a move
    of Black. *)
Theorem makeMove_records_the_move_and_passes_the_turn g from to piece g' :
  Board_getPiece (board g) from = Some piece ->
  makeMove g from to = Some (true, g') ->
  currentPlayer g' = opponent (currentPlayer g) /\
  moveHistory g' = moveHistory g ++ [recorded_move g from to piece] /\
  fullMoveNumber g' =
    (if Color_eqb (currentPlayer g) BLACK then Int.incr (fullMoveNumber g)
     else fullMoveNumber g).
Proof.
  intros Hp H.
  destruct (makeMove_success_fields _ _ _ _ _ Hp H) as (_ & Hc & Hh & _ & Hf & _).
  auto.
Qed.

(** X11: an accepted move adds one to the count kept under the FEN string
    of the new state, starting from zero for a new string, and changes no
    other count. *)
Theorem makeMove_counts_the_new_position g from to g' :
  makeMove g from to = Some (true, g') ->
  positionHistory g' !! getFEN g' =
    Some (Int.incr (default 0 (positionHistory g !! getFEN g'))) /\
  forall fen, fen <> getFEN g' -> positionHistory g' !! fen = positionHistory g !! fen.
Proof.
  intros H. destruct (makeMove_success_inv _ _ _ _ H) as (piece & Hp & _).
  destruct (makeMove_success_fields _ _ _ _ _ Hp H) as (_ & _ & _ & _ & _ & Hh).
  rewrite Hh at 1. unfold count_position. split.
  - apply lookup_insert_eq.
  - intros fen Hne. rewrite Hh. unfold count_position.
    apply lookup_insert_ne. congruence.
Qed.

(** X13: [undoMove] does nothing on an empty history; otherwise it removes
    one record and passes the turn back; it never changes the half-move
    clock, the full-move number or the repetition counts. *)
Theorem undoMove_takes_back_one_move g g' :
  undoMove g = Some (Restored g') ->
  (moveHistory g = [] -> g' = g) /\
  (moveHistory g <> [] ->
     S (length (moveHistory g')) = length (moveHistory g) /\
     currentPlayer g' = opponent (currentPlayer g)) /\
  halfMoveClock g' = halfMoveClock g /\
  fullMoveNumber g' = fullMoveNumber g /\
  positionHistory g' = positionHistory g.
Proof.
  intros H. apply undoMove_fields in H
    as [[Hn ->]|(m & mover & Hl & _ & _ & _ & Hc & Hh & _ & Hk1 & Hk2 & Hk3)].
  - split; [reflexivity|]. split; [intros Hne; contradiction|]. auto.
  - split; [|split].
    + intros Hn. rewrite Hn in Hl. discriminate.
    + intros _. split; [|exact Hc]. rewrite Hh.
      destruct (moveHistory g) as [|x l _] using rev_ind; [discriminate|].
      rewrite removelast_last, length_app. simpl. lia.
    + auto.
Qed.

(** ** FEN fields *)

(** X26: the castling field is never empty, and it is a dash exactly when
    each side has moved its king or both of its rooks. *)
Theorem getCastlingString_dash_iff g :
  getCastlingString g <> EmptyString /\
  (getCastlingString g = "-"%string <->
   (whiteKingMoved g = true \/ ((whiteRookMoved g).1 = true /\ (whiteRookMoved g).2 = true)) /\
   (blackKingMoved g = true \/ ((blackRookMoved g).1 = true /\ (blackRookMoved g).2 = true))).
Proof.
  unfold getCastlingString.
  destruct (whiteKingMoved g), (blackKingMoved g),
    (whiteRookMoved g) as [[|] [|]], (blackRookMoved g) as [[|] [|]];
    vm_compute; (split; [discriminate|]);
    (split; [intros H; try discriminate H; intuition auto | intros H; intuition discriminate]).
Qed.

(** X27: two pieces get the same FEN letter exactly when they agree in type
    and colour. *)
Theorem getPieceChar_determines_type_and_colour p q :
  getPieceChar p = getPieceChar q <->
  getType p = getType q /\ getColor p = getColor q.
Proof.
  unfold getPieceChar. split.
  - destruct (getType p), (getColor p), (getType q), (getColor q);
      vm_compute; intros H; try discriminate H; split; reflexivity.
  - intros [-> ->]. reflexivity.
Qed.

(** X28: the notation of a coordinate on the board is a file letter a-h
    followed by a rank digit 1-8. *)
Theorem getNotation_of_valid_is_algebraic (p : Position) :
  isValid p = true -> is_algebraic (getNotation p) = true.
Proof.
  destruct p as [r k]. rewrite isValid_bounds. simpl. intros [Hr Hk].
  assert (r = 0 \/ r = 1 \/ r = 2 \/ r = 3 \/ r = 4 \/ r = 5 \/ r = 6 \/ r = 7) as Er by lia.
  assert (k = 0 \/ k = 1 \/ k = 2 \/ k = 3 \/ k = 4 \/ k = 5 \/ k = 6 \/ k = 7) as Ek by lia.
  clear Hr Hk.
  repeat (destruct Er as [-> | Er]); try subst r;
    repeat (destruct Ek as [-> | Ek]); try subst k; reflexivity.
Qed.

(** ** Draw *)

(** X25: [isDraw] answers [true] exactly when some FEN string has been
    counted three times or the half-move clock is at least 50. *)
Theorem isDraw_exactly g :
  isDraw g = true <->
  (exists fen n, positionHistory g !! fen = Some n /\ 3 <= n) \/ 50 <= halfMoveClock g.
Proof.
  rewrite isDraw_iff, isThreefoldRepetition_iff. reflexivity.
Qed.

(** X22: [isStalemate] answers [true] exactly when the side is not in check
    and none of its pieces has a pseudo-legal destination. *)
Theorem isStalemate_exactly_no_pseudo_legal_move g color :
  isStalemate g color = Some true <->
  isCheck g color = Some false /\
  forall piece, In piece (pieces_of (board g) color) ->
                Piece_getValidMoves piece (board g) = [].
Proof. apply isStalemate_true_iff. Qed.


(** ** Locating the king and detecting check *)

Lemma holds_king_spec b color pos :
  holds_king b color pos = true <->
  exists piece, Board_getPiece b pos = Some piece /\
                getType piece = KING /\ getColor piece = color.
Proof.
  unfold holds_king. destruct (Board_getPiece b pos) as [piece|].
  - unfold PieceType_eqb, Color_eqb.
    rewrite andb_true_iff, !bool_decide_eq_true. split.
    + intros [Ht Hc]. exists piece. auto.
    + intros (p & [= <-] & Ht & Hc). auto.
  - split; [discriminate | intros (p & [=] & _)].
Qed.

(** The loop over rows, from any value of [kingPos] and over any rows. *)
Lemma locateKing_loop_sound b color rs acc pos :
  (forall p, acc = Some p -> holds_king b color p = true) ->
  foldl (fun kingPos row =>
           match List.find (holds_king b color) (map (mkPosition row) cols) with
           | Some p => Some p
           | None => kingPos
           end) acc rs = Some pos ->
  holds_king b color pos = true.
Proof.
  revert acc. induction rs as [|row rs IH]; intros acc Hacc; cbn [foldl].
  - intros H. apply Hacc, H.
  - apply IH. intros p.
    destruct (List.find _ _) as [p'|] eqn:E.
    + intros [= <-]. apply find_some in E as [_ E]. exact E.
    + apply Hacc.
Qed.

Lemma locateKing_loop_keeps b color rs acc :
  acc <> None ->
  foldl (fun kingPos row =>
           match List.find (holds_king b color) (map (mkPosition row) cols) with
           | Some p => Some p
           | None => kingPos
           end) acc rs <> None.
Proof.
  revert acc. induction rs as [|row rs IH]; intros acc Hacc; cbn [foldl]; [exact Hacc|].
  apply IH. destruct (List.find _ _); [discriminate | exact Hacc].
Qed.

Lemma locateKing_loop_complete b color rs acc pos :
  In (getRow pos) rs -> In (getCol pos) cols -> holds_king b color pos = true ->
  foldl (fun kingPos row =>
           match List.find (holds_king b color) (map (mkPosition row) cols) with
           | Some p => Some p
           | None => kingPos
           end) acc rs <> None.
Proof.
  revert acc. induction rs as [|row rs IH]; intros acc Hr Hc Hk; [destruct Hr|].
  cbn [foldl]. destruct Hr as [->|Hr]; [|exact (IH _ Hr Hc Hk)].
  apply locateKing_loop_keeps.
  destruct (List.find _ _) eqn:E; [discriminate|].
  exfalso. rewrite (find_none _ _ E pos) in Hk; [discriminate|].
  apply in_map_iff. exists (getCol pos). split; [destruct pos; reflexivity | exact Hc].
Qed.

Lemma locateKing_unfold b color :
  locateKing b color =
  foldl (fun kingPos row =>
           match List.find (holds_king b color) (map (mkPosition row) cols) with
           | Some p => Some p
           | None => kingPos
           end) None rows.
Proof. reflexivity. Qed.

(** X23: the square the first loop of [isCheck] settles on holds a king of
    the colour, and the loop finds none exactly when no square holds
    one. *)
Theorem locateKing_finds_a_king b color :
  (forall pos, locateKing b color = Some pos ->
     exists piece, Board_getPiece b pos = Some piece /\
                   getType piece = KING /\ getColor piece = color) /\
  (locateKing b color = None <->
   forall pos piece, Board_getPiece b pos = Some piece ->
                     getColor piece = color -> getType piece <> KING).
Proof.
  rewrite locateKing_unfold. split.
  - intros pos H. apply holds_king_spec.
    apply (locateKing_loop_sound b color rows None pos); [discriminate | exact H].
  - split.
    + intros Hn pos piece Hp Hc Ht.
      pose proof (Board_getPiece_valid _ _ _ Hp) as Hv.
      apply isValid_bounds in Hv as [Hr Hk].
      apply (locateKing_loop_complete b color rows None pos); [| | | exact Hn].
      * apply list_elem_of_In, elem_of_seqZ. lia.
      * apply list_elem_of_In, elem_of_seqZ. lia.
      * apply holds_king_spec. exists piece. auto.
    + intros H.
      destruct (foldl _ None rows) as [pos|] eqn:E; [|reflexivity].
      apply (locateKing_loop_sound b color rows None pos) in E; [|discriminate].
      apply holds_king_spec in E as (piece & Hp & Ht & Hc).
      elim (H pos piece Hp Hc Ht).
Qed.

Lemma in_pieces_of b color piece :
  In piece (pieces_of b color) <->
  exists pos, Board_getPiece b pos = Some piece /\ getColor piece = color.
Proof.
  unfold pieces_of. rewrite filter_In, Color_eqb_eq.
  fold all_squares. rewrite <- list_elem_of_In, list_elem_of_omap. split.
  - intros [(pos & _ & Hp) Hc]. exists pos. auto.
  - intros (pos & Hp & Hc). split; [|exact Hc]. exists pos. split; [|exact Hp].
    apply list_elem_of_In, in_all_squares, (Board_getPiece_valid _ _ _ Hp).
Qed.

(** X24: [isCheck] answers [true] exactly when the king is located and some
    piece of the other colour standing on the board can move to that
    square. *)
Theorem isCheck_true_iff g color :
  isCheck g color = Some true <->
  exists kingPos from attacker,
    locateKing (board g) color = Some kingPos /\
    Board_getPiece (board g) from = Some attacker /\
    getColor attacker = opponent color /\
    Piece_canMoveTo attacker kingPos (board g) = true.
Proof.
  unfold isCheck.
  assert ((if Color_eqb color WHITE then BLACK else WHITE) = opponent color) as ->
    by (destruct color; reflexivity).
  destruct (locateKing (board g) color) as [kingPos|].
  - split.
    + intros [= H]. apply existsb_exists in H as (attacker & Hin & Hm).
      apply in_pieces_of in Hin as (from & Hp & Hc).
      exists kingPos, from, attacker. auto.
    + intros (k & from & attacker & [= <-] & Hp & Hc & Hm). f_equal.
      apply existsb_exists. exists attacker. split; [|exact Hm].
      apply in_pieces_of. exists from. auto.
  - split.
    + destruct (existsb _ _); discriminate.
    + intros (k & from & attacker & [=] & _).
Qed.


(** ** Worked instances *)

(** X1: on an 8x8 grid, reading a valid square after [setPiece] gives what
    was written, and every other square reads as before. *)
Theorem Board_setPiece_then_getPiece b pos x :
  eight_by_eight b = true -> isValid pos = true ->
  Board_getPiece (Board_setPiece b pos x) pos = x /\
  forall pos', pos' <> pos ->
    Board_getPiece (Board_setPiece b pos x) pos' = Board_getPiece b pos'.
Proof.
  intros Hs Hv. split; [exact (Board_getPiece_setPiece_eq b pos x Hs Hv)|].
  intros pos' Hne. apply Board_getPiece_setPiece_ne. congruence.
Qed.

Lemma Board_setPiece_then_getPiece_e4 :
  eight_by_eight Board_new = true /\ isValid (sq "e4") = true /\
  Board_getPiece (Board_setPiece Board_new (sq "e4") (Some e2_pawn)) (sq "e4") = Some e2_pawn /\
  Board_getPiece (Board_setPiece Board_new (sq "e4") (Some e2_pawn)) (sq "e5")
    = Board_getPiece Board_new (sq "e5").
Proof.
  split; [reflexivity|]. split; [reflexivity|].
  destruct (Board_setPiece_then_getPiece Board_new (sq "e4") (Some e2_pawn)) as [H1 H2];
    [reflexivity | reflexivity |].
  split; [exact H1|]. apply H2. discriminate.
Defined.

(** X2: on an 8x8 grid and between valid squares, [movePiece] puts the
    occupant of [from] on [to], replacing what stood there, leaves [from]
    empty and touches no other square. *)
Theorem Board_movePiece_relocates b from to :
  eight_by_eight b = true -> isValid from = true -> isValid to = true ->
  forall pos,
    Board_getPiece (Board_movePiece b from to) pos =
      if decide (pos = to) then Board_getPiece b from
      else if decide (pos = from) then None
      else Board_getPiece b pos.
Proof. intros Hs Hf Ht pos. apply Board_getPiece_movePiece; assumption. Qed.

Lemma Board_movePiece_relocates_e2e4 :
  eight_by_eight (board start) = true /\
  isValid (sq "e2") = true /\ isValid (sq "e4") = true /\
  Board_getPiece (Board_movePiece (board start) (sq "e2") (sq "e4")) (sq "e4")
    = (if decide (sq "e4" = sq "e4") then Board_getPiece (board start) (sq "e2")
       else if decide (sq "e4" = sq "e2") then None
       else Board_getPiece (board start) (sq "e4")).
Proof.
  split; [reflexivity|]. split; [reflexivity|]. split; [reflexivity|].
  apply (Board_movePiece_relocates (board start) (sq "e2") (sq "e4")); reflexivity.
Defined.

(** X3: every square of a freshly constructed board reads as empty, and so
    does every square of any board after [clear]. *)
Theorem Board_new_and_clear_are_empty :
  (forall pos, Board_getPiece Board_new pos = None) /\
  (forall b pos, Board_getPiece (Board_clear b) pos = None).
Proof. split; [apply Board_getPiece_new | apply Board_getPiece_clear]. Qed.

Lemma Pawn_never_lands_on_own_colour_d5 :
  In (sq "d5") (Pawn_getValidMoves e4_pawn (board pawn_takes_pawn)) /\
  Board_getPiece (board pawn_takes_pawn) (sq "d5") = Some d5_pawn /\
  getColor d5_pawn <> getColor e4_pawn.
Proof.
  assert (In (sq "d5") (Pawn_getValidMoves e4_pawn (board pawn_takes_pawn))) as Hin
    by (vm_compute; tauto).
  assert (Board_getPiece (board pawn_takes_pawn) (sq "d5") = Some d5_pawn) as Ht
    by reflexivity.
  split; [exact Hin|]. split; [exact Ht|].
  exact (Pawn_never_lands_on_own_colour e4_pawn (board pawn_takes_pawn) (sq "d5") d5_pawn Hin Ht).
Defined.

Lemma Pawn_double_step_off_board_a7 :
  In (mkPosition (-1) 0) (Pawn_getValidMoves a7_pawn Board_new) /\
  isValid (mkPosition (-1) 0) = false /\
  (isValid (mkPosition (-1) 0) = true \/
   (getHasMoved a7_pawn = false /\ mkPosition (-1) 0 = pawn_doubleForward a7_pawn)).
Proof.
  assert (In (mkPosition (-1) 0) (Pawn_getValidMoves a7_pawn Board_new)) as Hin
    by (vm_compute; tauto).
  split; [exact Hin|]. split; [reflexivity|].
  exact (Pawn_destinations_on_board_but_for_the_double_step a7_pawn Board_new _ Hin).
Defined.

Lemma Pawn_unobstructed_first_move_e2 :
  Board_getPiece (board start) (sq "e2") = Some e2_pawn /\
  pawn_forward e2_pawn = sq "e3" /\ pawn_doubleForward e2_pawn = sq "e4" /\
  Pawn_getValidMoves e2_pawn (board start) = [pawn_forward e2_pawn; pawn_doubleForward e2_pawn].
Proof.
  split; [reflexivity|]. split; [reflexivity|]. split; [reflexivity|].
  apply (Pawn_unobstructed_first_move e2_pawn (board start)); reflexivity.
Defined.

Lemma start_reaches_after_e4 : reaches start after_e4.
Proof.
  apply (reaches_makeMove start start (sq "e2") (sq "e4") true after_e4).
  - apply reaches_here.
  - vm_compute. reflexivity.
Defined.

Lemma makeMove_e2e4 : makeMove start (sq "e2") (sq "e4") = Some (true, after_e4).
Proof. vm_compute. reflexivity. Defined.

Lemma makeMove_records_e2e4 :
  Board_getPiece (board start) (sq "e2") = Some e2_pawn /\
  makeMove start (sq "e2") (sq "e4") = Some (true, after_e4) /\
  currentPlayer after_e4 = opponent (currentPlayer start) /\
  moveHistory after_e4 = moveHistory start ++ [recorded_move start (sq "e2") (sq "e4") e2_pawn] /\
  fullMoveNumber after_e4 =
    (if Color_eqb (currentPlayer start) BLACK then Int.incr (fullMoveNumber start)
     else fullMoveNumber start).
Proof.
  split; [reflexivity|]. split; [exact makeMove_e2e4|].
  apply (makeMove_records_the_move_and_passes_the_turn start (sq "e2") (sq "e4") e2_pawn);
    [reflexivity | exact makeMove_e2e4].
Defined.

Lemma halfMoveClock_after_e2e4 :
  Board_getPiece (board start) (sq "e2") = Some e2_pawn /\
  makeMove start (sq "e2") (sq "e4") = Some (true, after_e4) /\
  halfMoveClock after_e4 =
    (if nonnull (Board_getPiece (board start) (sq "e4")) || PieceType_eqb (getType e2_pawn) PAWN
     then 0 else Int.incr (halfMoveClock start)).
Proof.
  split; [reflexivity|]. split; [exact makeMove_e2e4|].
  apply (halfMoveClock_after_makeMove start (sq "e2") (sq "e4") e2_pawn);
    [reflexivity | exact makeMove_e2e4].
Defined.

Lemma makeMove_counts_e2e4 :
  makeMove start (sq "e2") (sq "e4") = Some (true, after_e4) /\
  positionHistory after_e4 !! getFEN after_e4 =
    Some (Int.incr (default 0 (positionHistory start !! getFEN after_e4))) /\
  positionHistory after_e4 !! "8/8/8/8/8/8/8/8 w - a8 0 1"%string
    = positionHistory start !! "8/8/8/8/8/8/8/8 w - a8 0 1"%string.
Proof.
  split; [exact makeMove_e2e4|].
  destruct (makeMove_counts_the_new_position start (sq "e2") (sq "e4") after_e4 makeMove_e2e4)
    as [H1 H2].
  split; [exact H1|]. apply H2. vm_compute. discriminate.
Defined.

Lemma makeMove_moves_only_the_mover_e2e4 :
  eight_by_eight (board start) = true /\ distinct_addrs (board start) = true /\
  Board_getPiece (board start) (sq "e2") = Some e2_pawn /\
  isValid (sq "e4") = true /\
  makeMove start (sq "e2") (sq "e4") = Some (true, after_e4) /\
  Board_getPiece (board after_e4) (sq "d2") =
    (if decide (sq "d2" = sq "e4") then Some (setHasMoved true e2_pawn)
     else if decide (sq "d2" = sq "e2") then None
     else Board_getPiece (board start) (sq "d2")).
Proof.
  split; [reflexivity|]. split; [vm_compute; reflexivity|]. split; [reflexivity|].
  split; [reflexivity|]. split; [exact makeMove_e2e4|].
  apply (makeMove_moves_only_the_mover start (sq "e2") (sq "e4") e2_pawn after_e4);
    [reflexivity | vm_compute; reflexivity | reflexivity | reflexivity | exact makeMove_e2e4].
Defined.

Lemma undoMove_after_e4 : undoMove after_e4 = Some (Restored (state_undone after_e4)).
Proof. vm_compute. reflexivity. Defined.

Lemma undoMove_takes_back_e2e4 :
  undoMove after_e4 = Some (Restored (state_undone after_e4)) /\
  (moveHistory after_e4 = [] -> state_undone after_e4 = after_e4) /\
  (moveHistory after_e4 <> [] ->
     S (length (moveHistory (state_undone after_e4))) = length (moveHistory after_e4) /\
     currentPlayer (state_undone after_e4) = opponent (currentPlayer after_e4)) /\
  halfMoveClock (state_undone after_e4) = halfMoveClock after_e4 /\
  fullMoveNumber (state_undone after_e4) = fullMoveNumber after_e4 /\
  positionHistory (state_undone after_e4) = positionHistory after_e4.
Proof.
  split; [exact undoMove_after_e4|].
  exact (undoMove_takes_back_one_move after_e4 (state_undone after_e4) undoMove_after_e4).
Defined.

Lemma undoMove_restores_e2e4 :
  eight_by_eight (board start) = true /\ distinct_addrs (board start) = true /\
  Board_getPiece (board start) (sq "e2") = Some e2_pawn /\
  getHasMoved e2_pawn = false /\
  Board_getPiece (board start) (sq "e4") = None /\
  makeMove start (sq "e2") (sq "e4") = Some (true, after_e4) /\
  exists g2,
    undoMove after_e4 = Some (Restored g2) /\ board g2 = board start /\
    currentPlayer g2 = currentPlayer start /\ moveHistory g2 = moveHistory start.
Proof.
  split; [reflexivity|]. split; [vm_compute; reflexivity|]. split; [reflexivity|].
  split; [reflexivity|]. split; [reflexivity|]. split; [exact makeMove_e2e4|].
  apply (undoMove_restores_quiet_first_move start (sq "e2") (sq "e4") e2_pawn after_e4);
    [reflexivity | vm_compute; reflexivity | reflexivity | reflexivity | reflexivity
    | exact makeMove_e2e4].
Defined.

Lemma undoMove_after_capture_f8a3 :
  eight_by_eight (board before_capture) = true /\
  distinct_addrs (board before_capture) = true /\
  Board_getPiece (board before_capture) (sq "f8") = Some f8_bishop /\
  Board_getPiece (board before_capture) (sq "a3") = Some a2_pawn /\
  sq "f8" <> sq "a3" /\
  makeMove before_capture (sq "f8") (sq "a3")
    = Some (true, state_after before_capture (sq "f8") (sq "a3")) /\
  exists g2,
    undoMove (state_after before_capture (sq "f8") (sq "a3"))
      = Some (Stale g2 (sq "a3") (ptr_of a2_pawn)) /\
    Board_deref (board g2) (addr a2_pawn) = None /\
    (forall pos,
       Board_getPiece (board g2) pos =
         if decide (pos = sq "a3") then None
         else if decide (pos = sq "f8") then Some (setHasMoved false f8_bishop)
         else Board_getPiece (board before_capture) pos) /\
    currentPlayer g2 = currentPlayer before_capture /\
    moveHistory g2 = moveHistory before_capture.
Proof.
  assert (makeMove before_capture (sq "f8") (sq "a3")
          = Some (true, state_after before_capture (sq "f8") (sq "a3"))) as H
    by (apply makeMove_state_after; vm_compute; reflexivity).
  assert (sq "f8" <> sq "a3") as Hne by (intros E; vm_compute in E; discriminate E).
  split; [vm_compute; reflexivity|]. split; [vm_compute; reflexivity|].
  split; [vm_compute; reflexivity|]. split; [vm_compute; reflexivity|].
  split; [exact Hne|]. split; [exact H|].
  apply (undoMove_after_capture_keeps_destroyed_piece before_capture (sq "f8") (sq "a3")
           f8_bishop a2_pawn);
    [vm_compute; reflexivity | vm_compute; reflexivity | vm_compute; reflexivity
    | vm_compute; reflexivity | exact Hne | exact H].
Defined.

Lemma reaches_keeps_board_well_formed_after_e4 :
  eight_by_eight (board start) = true /\ distinct_addrs (board start) = true /\
  reaches start after_e4 /\
  eight_by_eight (board after_e4) = true /\ distinct_addrs (board after_e4) = true.
Proof.
  split; [reflexivity|]. split; [vm_compute; reflexivity|].
  split; [exact start_reaches_after_e4|].
  apply (reaches_keeps_board_well_formed start after_e4);
    [reflexivity | vm_compute; reflexivity | exact start_reaches_after_e4].
Defined.

Lemma pieces_keep_their_position_member_after_e4 :
  reaches start after_e4 /\
  Board_getPiece (board after_e4) (sq "e4") = Some (setHasMoved true e2_pawn) /\
  exists pos0 p0,
    Board_getPiece (board start) pos0 = Some p0 /\
    same_object p0 (setHasMoved true e2_pawn) /\
    (created_in_place (board start) = true ->
     getPosition (setHasMoved true e2_pawn) = pos0).
Proof.
  split; [exact start_reaches_after_e4|]. split; [vm_compute; reflexivity|].
  apply (pieces_keep_their_position_member start after_e4 (sq "e4"));
    [exact start_reaches_after_e4 | vm_compute; reflexivity].
Defined.

Lemma castling_rights_after_e4 :
  reaches start after_e4 /\
  (whiteKingMoved after_e4 = whiteKingMoved start /\
   blackKingMoved after_e4 = blackKingMoved start /\
   whiteRookMoved after_e4 = whiteRookMoved start /\
   blackRookMoved after_e4 = blackRookMoved start /\
   enPassantTarget after_e4 = enPassantTarget start) /\
  getCastlingString after_e4 = getCastlingString start.
Proof.
  split; [exact start_reaches_after_e4|].
  exact (castling_rights_and_en_passant_never_change start after_e4 start_reaches_after_e4).
Defined.

Lemma side_to_move_after_e4 :
  currentPlayer start = side_by_parity start /\
  reaches start after_e4 /\
  currentPlayer after_e4 = side_by_parity after_e4.
Proof.
  split; [reflexivity|]. split; [exact start_reaches_after_e4|].
  apply (side_to_move_follows_history_parity start after_e4);
    [reflexivity | exact start_reaches_after_e4].
Defined.

Lemma getValidMoves_all_or_nothing_e2 :
  Board_getPiece (board start) (sq "e2") = Some e2_pawn /\
  (isCheck start (getColor e2_pawn) = Some false ->
   GameState_getValidMoves start (sq "e2") = Some (Piece_getValidMoves e2_pawn (board start))) /\
  (isCheck start (getColor e2_pawn) = Some true ->
   GameState_getValidMoves start (sq "e2") = Some []).
Proof.
  split; [reflexivity|].
  apply (getValidMoves_all_or_nothing start (sq "e2") e2_pawn). reflexivity.
Defined.

Lemma getNotation_of_e2_is_algebraic :
  isValid (sq "e2") = true /\ is_algebraic (getNotation (sq "e2")) = true.
Proof.
  split; [reflexivity|]. apply (getNotation_of_valid_is_algebraic (sq "e2")). reflexivity.
Defined.

